(** * The [heal] command of the MinIO client: a shallow embedding

    The development follows [cmd/admin-heal.go] and the command-suggestion
    function of [cmd/main.go].  The entry function [mainAdminHeal] is
    embedded as a program in a small trace-and-exit monad: every call to
    an external collaborator (the admin client, the help printer, the
    message printer, the status follower) is recorded as an [Event], and a
    process exit cuts the rest of the program short. *)

From Stdlib Require Import List String Ascii Bool ZArith NArith Lia Arith.
From Stdlib Require Import Sorting.Sorted Sorting.Permutation.
From Stdlib Require Import Structures.OrderedTypeEx.
Import ListNotations.

Local Open Scope string_scope.
Local Open Scope list_scope.

(** ** Strings as Go has them: sequences of bytes *)

Module GoStrings.

(** [strings.ToLower] on one byte.  Only the bytes ['A'..'Z'] change;
    bytes from 0x80 on are kept.  Go lowers non-ASCII runes as well, and
    no such rune lowers to a letter of ["normal"] or ["deep"], so the
    comparison made by [checkAdminHealSyntax] is unaffected. *)
Definition toLowerByte (c : ascii) : ascii :=
  let n := nat_of_ascii c in
  if (65 <=? n)%nat && (n <=? 90)%nat then ascii_of_nat (n + 32) else c.

Fixpoint ToLower (s : string) : string :=
  match s with
  | EmptyString => EmptyString
  | String c r => String (toLowerByte c) (ToLower r)
  end.

(** [strings.HasPrefix s p]. *)
Definition HasPrefix (s p : string) : bool := String.prefix p s.

Definition slash : ascii := ascii_of_nat 47.
Definition backslash : ascii := ascii_of_nat 92.

(** [filepath.ToSlash]: the platform separator becomes ['/']; where the
    separator is ['/'] already the path is returned as it is. *)
Fixpoint replaceByte (old new : ascii) (s : string) : string :=
  match s with
  | EmptyString => EmptyString
  | String c r =>
      String (if Ascii.eqb c old then new else c) (replaceByte old new r)
  end.

Definition ToSlash (separator : ascii) (path : string) : string :=
  if Ascii.eqb separator slash then path
  else replaceByte separator slash path.

(** [strings.SplitN s sep n] for a one-byte separator and [n > 0]: at
    most [n] pieces, the last one holding the unsplit remainder.
    [cut sep s] is the text before the first separator and, when there
    is one, the text after it. *)
Fixpoint cut (sep : ascii) (s : string) : string * option string :=
  match s with
  | EmptyString => (EmptyString, None)
  | String c r =>
      if Ascii.eqb c sep then (EmptyString, Some r)
      else let '(h, t) := cut sep r in (String c h, t)
  end.

Fixpoint SplitN (sep : ascii) (n : nat) (s : string) : list string :=
  match n with
  | O => []
  | S O => [s]
  | S n' =>
      match cut sep s with
      | (h, None) => [h]
      | (h, Some t) => h :: SplitN sep n' t
      end
  end.

Fixpoint contains (c : ascii) (s : string) : bool :=
  match s with
  | EmptyString => false
  | String d r => Ascii.eqb d c || contains c r
  end.

End GoStrings.
Import GoStrings.

(** ** The data of the command *)

(** [madmin.HealScanMode]. *)
Inductive HealScanMode : Type :=
| HealNormalScan
| HealDeepScan.

(** [madmin.HealOpts]. *)
Record HealOpts : Type := mkHealOpts {
  Recursive : bool;
  DryRun : bool;
  Remove : bool;
  ScanMode : HealScanMode
}.

(** A Go [error] value; [None] is [nil]. *)
Definition error : Type := string.

(** [madmin.HealStartSuccess], [madmin.HealTaskStatus] and
    [madmin.BgHealState], with the fields the command reads. *)
Record HealStartSuccess : Type := mkHealStart {
  ClientToken : string
}.

Record HealTaskStatus : Type := mkHealTaskStatus {
  Summary : string;
  FailureDetail : string;
  NumDisks : nat
}.

Record BgHealState : Type := mkBgHealState {
  ScannedItemsCount : Z;
  LastHealActivity : Z
}.

(** [cli.Context]: the positional arguments and the parsed flags. *)
Record Context : Type := mkContext {
  Args : list string;
  ctxString : string -> string;
  ctxBool : string -> bool
}.

(** [cli.Args.Get]. *)
Definition Get (args : list string) (n : nat) : string :=
  nth n args "".

Record stopHealMessage : Type := mkStopHeal {
  Status : string;
  Alias : string
}.

Record backgroundHealStatusMessage : Type := mkBgMsg {
  bgStatus : string;
  HealInfo : BgHealState
}.

Inductive message : Type :=
| MsgStopHeal (m : stopHealMessage)
| MsgBackgroundHealStatus (m : backgroundHealStatusMessage).

(** [uiData] as [mainAdminHeal] fills it; the two maps start empty. *)
Record uiData : Type := mkUiData {
  uiBucket : string;
  uiPrefix : string;
  uiClientToken : string;
  uiForceStart : bool;
  uiHealOpts : HealOpts;
  ObjectsByOnlineDrives : list (Z * Z);
  HealthCols : list (string * Z)
}.

(** ** Events and the command monad *)

Inductive Event : Type :=
| EvShowCommandHelpAndExit (command : string) (code : Z)
| EvSetColor (tag : string)
| EvNewAdminClient (aliasedURL : string)
| EvBackgroundHealStatus
| EvHeal (bucket prefix : string) (opts : HealOpts) (clientToken : string)
         (forceStart forceStop : bool)
| EvPrintMsg (m : message)
| EvDisplayAndFollowHealStatus (ui : uiData) (aliasedURL : string)
| EvFatal (cause : error) (trace : list string) (msg : string).

Inductive Outcome (A : Type) : Type :=
| Returned (a : A)
| Exited (code : Z).
Arguments Returned {A} a.
Arguments Exited {A} code.

Module Cmd.

(** A command yields the events it performed, in order, and either a
    value or the exit code of the process. *)
Definition M (A : Type) : Type := (list Event * Outcome A)%type.

Definition ret {A} (a : A) : M A := ([], Returned a).

Definition bind {A B} (m : M A) (f : A -> M B) : M B :=
  match m with
  | (t, Returned a) => let '(t', r) := f a in (t ++ t', r)
  | (t, Exited c) => (t, Exited c)
  end.

Definition emit (e : Event) : M unit := ([e], Returned tt).

Definition exit {A} (code : Z) : M A := ([], Exited code).

Definition trace {A} (m : M A) : list Event := fst m.
Definition outcome {A} (m : M A) : Outcome A := snd m.

End Cmd.
Import Cmd.

Notation "x <- c1 ;; c2" := (Cmd.bind c1 (fun x => c2))
  (at level 61, c1 at next level, right associativity).
Notation "c1 ;; c2" := (Cmd.bind c1 (fun _ => c2))
  (at level 61, right associativity).

(** ** The collaborators *)

(** What the command does not own: the platform, the admin client and the
    server behind it, the status follower of [admin-heal-ui.go] and the
    JSON encoder of the task status. *)
Record Env : Type := mkEnv {
  pathSeparator : ascii;
  newAdminClient : string -> option error;
  BackgroundHealStatus : BgHealState * option error;
  Heal : string -> string -> HealOpts -> string -> bool -> bool ->
         HealStartSuccess * HealTaskStatus * option error;
  DisplayAndFollowHealStatus : uiData -> string ->
                               HealTaskStatus * option error;
  MarshalIndentTaskStatus : HealTaskStatus -> string
}.

(** Modelled from the spec: [splitStr] of [cmd/utils.go] is missing.  The
    target locator has the form [alias[/bucket[/prefix]]]; the call
    [splitStr(aliasedURL, "/", 3)] yields its three parts, a missing part
    being the empty string. *)
Fixpoint padTo (n : nat) (l : list string) : list string :=
  match n with
  | O => l
  | S n' =>
      match l with
      | [] => "" :: padTo n' []
      | x :: r => x :: padTo n' r
      end
  end.

Definition splitStr (path : string) (sep : ascii) (n : nat) : list string :=
  padTo n (SplitN sep n path).

(** Modelled from the spec: [fatalIf] of [cmd/error.go] is missing.  With
    no error it does nothing; with an error it reports it, with the
    message and the trace it carries, and the process ends with a
    non-zero status. *)
Definition fatalIf (err : option (error * list string)) (msg : string)
  : M unit :=
  match err with
  | None => ret tt
  | Some (e, tr) => emit (EvFatal e tr msg) ;; exit 1%Z
  end.

(** [probe.NewError(e)], then [Trace(args...)]: [nil] stays [nil]. *)
Definition NewError (e : option error) : option (error * list string) :=
  option_map (fun x => (x, [])) e.

Definition Trace (err : option (error * list string)) (args : list string)
  : option (error * list string) :=
  option_map (fun '(x, tr) => (x, tr ++ args)) err.

(** [cli.ShowCommandHelpAndExit]: prints the help of the command and ends
    the process with the code. *)
Definition ShowCommandHelpAndExit {A} (command : string) (code : Z) : M A :=
  emit (EvShowCommandHelpAndExit command code) ;; exit code.

(** Modelled from the spec: [printMsg] of [cmd/print.go] is missing; it
    writes the message in one of its two renderings. *)
Definition printMsg (m : message) : M unit := emit (EvPrintMsg m).

(** ** [admin-heal.go] *)

Definition scanNormalMode : string := "normal".
Definition scanDeepMode : string := "deep".

Definition checkAdminHealSyntax (ctx : Context) : M unit :=
  (if negb (List.length (Args ctx) =? 1)%nat
   then ShowCommandHelpAndExit "heal" 1%Z
   else ret tt) ;;
  let scanArg := ctxString ctx "scan" in
  let scanArg := ToLower scanArg in
  if negb (String.eqb scanArg scanNormalMode)
     && negb (String.eqb scanArg scanDeepMode)
  then ShowCommandHelpAndExit "heal" 1%Z
  else ret tt.

Definition transformScanArg (scanArg : string) : HealScanMode :=
  if String.eqb scanArg "deep" then HealDeepScan else HealNormalScan.

Definition setColors : M unit :=
  emit (EvSetColor "Heal") ;;
  emit (EvSetColor "HealBackgroundTitle") ;;
  emit (EvSetColor "HealBackground") ;;
  emit (EvSetColor "HealUpdateUI") ;;
  emit (EvSetColor "HealStopped").

(** The bucket and the prefix of lines 202-204. *)
Definition scopeOf (separator : ascii) (arg : string) : string * string :=
  let aliasedURL := ToSlash separator arg in
  let splits := splitStr aliasedURL slash 3 in
  (nth 1 splits "", nth 2 splits "").

Definition mainAdminHeal (env : Env) (ctx : Context) : M (option error) :=
  checkAdminHealSyntax ctx ;;
  let args := Args ctx in
  let aliasedURL := Get args 0 in
  setColors ;;
  emit (EvNewAdminClient aliasedURL) ;;
  match newAdminClient env aliasedURL with
  | Some e =>
      fatalIf (Trace (Some (e, [])) [aliasedURL])
              "Cannot initialize admin client." ;;
      ret None
  | None =>
      let aliasedURL := ToSlash (pathSeparator env) aliasedURL in
      let splits := splitStr aliasedURL slash 3 in
      let bucket := nth 1 splits "" in
      let prefix := nth 2 splits "" in
      if String.eqb bucket "" && negb (ctxBool ctx "recursive") then
        emit EvBackgroundHealStatus ;;
        let '(bgHealStatus, berr) := BackgroundHealStatus env in
        fatalIf (NewError berr)
                "Failed to get the status of the background heal." ;;
        printMsg (MsgBackgroundHealStatus (mkBgMsg "success" bgHealStatus)) ;;
        ret None
      else
        let opts := {| ScanMode := transformScanArg (ctxString ctx "scan");
                       Remove := ctxBool ctx "remove";
                       Recursive := ctxBool ctx "recursive";
                       DryRun := ctxBool ctx "dry-run" |} in
        let forceStart := ctxBool ctx "force-start" in
        let forceStop := ctxBool ctx "force-stop" in
        if forceStop then
          emit (EvHeal bucket prefix opts "" forceStart forceStop) ;;
          let '(_, _, herr) :=
            Heal env bucket prefix opts "" forceStart forceStop in
          fatalIf (NewError herr) "Failed to stop heal sequence." ;;
          printMsg (MsgStopHeal (mkStopHeal "success" aliasedURL)) ;;
          ret None
        else
          emit (EvHeal bucket prefix opts "" forceStart false) ;;
          let '(healStart, _, herr) :=
            Heal env bucket prefix opts "" forceStart false in
          fatalIf (NewError herr) "Failed to start heal sequence." ;;
          let ui := {| uiBucket := bucket;
                       uiPrefix := prefix;
                       uiClientToken := ClientToken healStart;
                       uiForceStart := forceStart;
                       uiHealOpts := opts;
                       ObjectsByOnlineDrives := [];
                       HealthCols := [] |} in
          emit (EvDisplayAndFollowHealStatus ui aliasedURL) ;;
          let '(res, e) := DisplayAndFollowHealStatus env ui aliasedURL in
          (match e with
           | Some _ =>
               if negb (String.eqb (FailureDetail res) "") then
                 let traceStr := MarshalIndentTaskStatus env res in
                 fatalIf (Trace (NewError e) [aliasedURL; traceStr])
                         "Unable to display heal status."
               else
                 fatalIf (Trace (NewError e) [aliasedURL])
                         "Unable to display heal status."
           | None => ret tt
           end) ;;
          ret None
  end.

(** ** Reading a run *)

Definition isHeal (e : Event) : bool :=
  match e with EvHeal _ _ _ _ _ _ => true | _ => false end.

Definition isBackgroundHealStatus (e : Event) : bool :=
  match e with EvBackgroundHealStatus => true | _ => false end.

Definition isPoll (e : Event) : bool :=
  match e with EvDisplayAndFollowHealStatus _ _ => true | _ => false end.

Definition isPrintMsg (e : Event) : bool :=
  match e with EvPrintMsg _ => true | _ => false end.

(** The calls that reach the network: building the admin client and the
    three calls made through it. *)
Definition isNetwork (e : Event) : bool :=
  match e with
  | EvNewAdminClient _ | EvBackgroundHealStatus | EvHeal _ _ _ _ _ _
  | EvDisplayAndFollowHealStatus _ _ => true
  | _ => false
  end.

Definition isFatalOrHelp (e : Event) : bool :=
  match e with
  | EvFatal _ _ _ | EvShowCommandHelpAndExit _ _ => true
  | _ => false
  end.

Definition healCalls (t : list Event) : list Event := filter isHeal t.
Definition backgroundCalls (t : list Event) : list Event :=
  filter isBackgroundHealStatus t.
Definition pollCalls (t : list Event) : list Event := filter isPoll t.
Definition printed (t : list Event) : list Event := filter isPrintMsg t.
Definition networkCalls (t : list Event) : list Event := filter isNetwork t.

(** The conditions [mainAdminHeal] tests, in the order it tests them. *)
Definition recognizedScan (scanArg : string) : bool :=
  String.eqb (ToLower scanArg) scanNormalMode
  || String.eqb (ToLower scanArg) scanDeepMode.

Definition syntaxOK (ctx : Context) : bool :=
  (List.length (Args ctx) =? 1)%nat && recognizedScan (ctxString ctx "scan").

Definition target (ctx : Context) : string := Get (Args ctx) 0.

Definition locator (env : Env) (ctx : Context) : string :=
  ToSlash (pathSeparator env) (target ctx).

Definition bucketOf (env : Env) (ctx : Context) : string :=
  fst (scopeOf (pathSeparator env) (target ctx)).

Definition prefixOf (env : Env) (ctx : Context) : string :=
  snd (scopeOf (pathSeparator env) (target ctx)).

Definition optsOf (ctx : Context) : HealOpts :=
  {| ScanMode := transformScanArg (ctxString ctx "scan");
     Remove := ctxBool ctx "remove";
     Recursive := ctxBool ctx "recursive";
     DryRun := ctxBool ctx "dry-run" |}.

Definition backgroundOnly (env : Env) (ctx : Context) : bool :=
  String.eqb (bucketOf env ctx) "" && negb (ctxBool ctx "recursive").

Definition startResult (env : Env) (ctx : Context)
  : HealStartSuccess * HealTaskStatus * option error :=
  Heal env (bucketOf env ctx) (prefixOf env ctx) (optsOf ctx) ""
       (ctxBool ctx "force-start") false.

Definition stopResult (env : Env) (ctx : Context)
  : HealStartSuccess * HealTaskStatus * option error :=
  Heal env (bucketOf env ctx) (prefixOf env ctx) (optsOf ctx) ""
       (ctxBool ctx "force-start") true.

Definition uiOf (env : Env) (ctx : Context) : uiData :=
  {| uiBucket := bucketOf env ctx;
     uiPrefix := prefixOf env ctx;
     uiClientToken := ClientToken (fst (fst (startResult env ctx)));
     uiForceStart := ctxBool ctx "force-start";
     uiHealOpts := optsOf ctx;
     ObjectsByOnlineDrives := [];
     HealthCols := [] |}.

Definition followResult (env : Env) (ctx : Context)
  : HealTaskStatus * option error :=
  DisplayAndFollowHealStatus env (uiOf env ctx) (locator env ctx).

(** The events every run performs once the syntax is accepted. *)
Definition prelude (ctx : Context) : list Event :=
  [EvSetColor "Heal"; EvSetColor "HealBackgroundTitle";
   EvSetColor "HealBackground"; EvSetColor "HealUpdateUI";
   EvSetColor "HealStopped"; EvNewAdminClient (target ctx)].

(** Concrete contexts and collaborators for the examples. *)
Definition flagsOf (set : list string) (name : string) : bool :=
  existsb (String.eqb name) set.

Definition mkCtx (args : list string) (scan : string) (set : list string)
  : Context :=
  {| Args := args; ctxString := fun _ => scan; ctxBool := flagsOf set |}.

Definition emptyStatus : HealTaskStatus :=
  {| Summary := ""; FailureDetail := ""; NumDisks := 0 |}.

Definition quietEnv (separator : ascii) : Env :=
  {| pathSeparator := separator;
     newAdminClient := fun _ => None;
     BackgroundHealStatus := (mkBgHealState 0 0, None);
     Heal := fun _ _ _ _ _ _ => (mkHealStart "token", emptyStatus, None);
     DisplayAndFollowHealStatus := fun _ _ => (emptyStatus, None);
     MarshalIndentTaskStatus := fun r => Summary r |}.

Definition unixEnv : Env := quietEnv slash.
Definition windowsEnv : Env := quietEnv backslash.

(** The failure paths of [mainAdminHeal], in the order the function
    meets them. *)
Inductive Failure : Type :=
| BadSyntax
| NoClient
| BackgroundQueryFailed
| StopFailed
| StartFailed
| FollowFailed.

Definition failureOf (env : Env) (ctx : Context) : option Failure :=
  if negb (syntaxOK ctx) then Some BadSyntax
  else
    match newAdminClient env (target ctx) with
    | Some _ => Some NoClient
    | None =>
        if backgroundOnly env ctx then
          match snd (BackgroundHealStatus env) with
          | Some _ => Some BackgroundQueryFailed
          | None => None
          end
        else if ctxBool ctx "force-stop" then
          match snd (stopResult env ctx) with
          | Some _ => Some StopFailed
          | None => None
          end
        else
          match snd (startResult env ctx) with
          | Some _ => Some StartFailed
          | None =>
              match snd (followResult env ctx) with
              | Some _ => Some FollowFailed
              | None => None
              end
          end
    end.

(** A server whose background status query fails, and a follower that
    fails with or without a failure detail. *)
Definition failingBackgroundEnv : Env :=
  {| pathSeparator := slash;
     newAdminClient := fun _ => None;
     BackgroundHealStatus := (mkBgHealState 0 0, Some "connection refused");
     Heal := fun _ _ _ _ _ _ => (mkHealStart "token", emptyStatus, None);
     DisplayAndFollowHealStatus := fun _ _ => (emptyStatus, None);
     MarshalIndentTaskStatus := fun r => Summary r |}.

Definition failingFollowEnv (detail : string) : Env :=
  {| pathSeparator := slash;
     newAdminClient := fun _ => None;
     BackgroundHealStatus := (mkBgHealState 0 0, None);
     Heal := fun _ _ _ _ _ _ => (mkHealStart "token", emptyStatus, None);
     DisplayAndFollowHealStatus := fun _ _ =>
       ({| Summary := "stopped"; FailureDetail := detail; NumDisks := 3 |},
        Some "heal had an error");
     MarshalIndentTaskStatus := fun r => FailureDetail r |}.

(** ** The machine-readable rendering of a stop message *)

Module Json.

Local Open Scope string_scope.

Definition dquote : ascii := ascii_of_nat 34.
Definition newline : ascii := ascii_of_nat 10.

Definition hexDigit (n : nat) : ascii :=
  match get n "0123456789abcdef" with
  | Some c => c
  | None => zero
  end.

Definition hexVal (c : ascii) : option nat :=
  let n := nat_of_ascii c in
  if (48 <=? n)%nat && (n <=? 57)%nat then Some (n - 48)
  else if (97 <=? n)%nat && (n <=? 102)%nat then Some (n - 87)
  else if (65 <=? n)%nat && (n <=? 70)%nat then Some (n - 55)
  else None.

(** Modelled from the spec: the string encoder of [pkg/colorjson] is
    missing.  The machine-readable form is a JSON text; a string is
    written between double quotes with the quote, the backslash, the
    control bytes and the bytes [<], [>], [&] escaped, and every other
    byte written as it is. *)
Definition escape (c : ascii) : string :=
  let n := nat_of_ascii c in
  if Ascii.eqb c dquote then String backslash (String dquote "")
  else if Ascii.eqb c backslash then String backslash (String backslash "")
  else if (n =? 10)%nat then "\n"
  else if (n =? 13)%nat then "\r"
  else if (n =? 9)%nat then "\t"
  else if (n <? 32)%nat || (n =? 60)%nat || (n =? 62)%nat || (n =? 38)%nat
  then "\u00" ++ String (hexDigit (n / 16)) (String (hexDigit (n mod 16)) "")
  else String c "".

Fixpoint quoteBody (s : string) : string :=
  match s with
  | EmptyString => EmptyString
  | String c r => escape c ++ quoteBody r
  end.

Definition quote (s : string) : string :=
  String dquote (quoteBody s ++ String dquote "").

(** Modelled from the spec: [MarshalIndent] of [pkg/colorjson] is
    missing.  [MarshalIndent(s, "", " ")] of a [stopHealMessage] is the
    field-stable structured form: a JSON object with one member per
    line, indented by one space, under the keys of the field tags. *)
Definition MarshalIndent (s : stopHealMessage) : string :=
  "{" ++ String newline
    (" " ++ quote "status" ++ ": " ++ quote (Status s) ++ ","
     ++ String newline
    (" " ++ quote "alias" ++ ": " ++ quote (Alias s)
     ++ String newline "}")).

(** The reader of the machine-readable form, piece by piece. *)
Definition push (c : ascii) (r : option (string * string))
  : option (string * string) :=
  match r with
  | Some (body, rest) => Some (String c body, rest)
  | None => None
  end.

(** The bytes of the code point of a [\uXXXX] escape, in UTF-8; a
    surrogate half is refused. *)
Definition utf8 (n : N) : option string :=
  if (n <? 128)%N then Some (String (ascii_of_N n) "")
  else if (n <? 2048)%N then
    Some (String (ascii_of_N (192 + n / 64))
         (String (ascii_of_N (128 + n mod 64)) ""))
  else if (55296 <=? n)%N && (n <=? 57343)%N then None
  else
    Some (String (ascii_of_N (224 + n / 4096))
         (String (ascii_of_N (128 + (n / 64) mod 64))
         (String (ascii_of_N (128 + n mod 64)) ""))).

Definition pushAll (p : option string) (r : option (string * string))
  : option (string * string) :=
  match p, r with
  | Some p, Some (body, rest) => Some (p ++ body, rest)
  | _, _ => None
  end.

Definition hex4 (a b c d : ascii) : option N :=
  match hexVal a, hexVal b, hexVal c, hexVal d with
  | Some x, Some y, Some z, Some w =>
      Some (((N.of_nat x * 16 + N.of_nat y) * 16 + N.of_nat z) * 16
            + N.of_nat w)%N
  | _, _, _, _ => None
  end.

(** The text of a string literal after its opening quote: the decoded
    string and what follows the closing quote. *)
Fixpoint unquoteBody (s : string) : option (string * string) :=
  match s with
  | EmptyString => None
  | String c r =>
      if Ascii.eqb c dquote then Some (EmptyString, r)
      else if Ascii.eqb c backslash then
        match r with
        | EmptyString => None
        | String e r1 =>
            match nat_of_ascii e with
            | 34 => push dquote (unquoteBody r1)
            | 92 => push backslash (unquoteBody r1)
            | 47 => push slash (unquoteBody r1)
            | 98 => push (ascii_of_nat 8) (unquoteBody r1)
            | 102 => push (ascii_of_nat 12) (unquoteBody r1)
            | 110 => push (ascii_of_nat 10) (unquoteBody r1)
            | 114 => push (ascii_of_nat 13) (unquoteBody r1)
            | 116 => push (ascii_of_nat 9) (unquoteBody r1)
            | 117 =>
                match r1 with
                | String h1 (String h2 (String h3 (String h4 r2))) =>
                    match hex4 h1 h2 h3 h4 with
                    | Some n => pushAll (utf8 n) (unquoteBody r2)
                    | None => None
                    end
                | _ => None
                end
            | _ => None
            end
        end
      else if (nat_of_ascii c <? 32)%nat then None
      else push c (unquoteBody r)
  end.

Definition isSpace (c : ascii) : bool :=
  match nat_of_ascii c with
  | 32 | 9 | 10 | 13 => true
  | _ => false
  end.

Fixpoint skipSpace (s : string) : string :=
  match s with
  | EmptyString => EmptyString
  | String c r => if isSpace c then skipSpace r else s
  end.

(** A string literal, the leading white space skipped. *)
Definition literal (s : string) : option (string * string) :=
  match skipSpace s with
  | String c r => if Ascii.eqb c dquote then unquoteBody r else None
  | EmptyString => None
  end.

(** One byte of punctuation, the leading white space skipped. *)
Definition punct (s : string) : option (ascii * string) :=
  match skipSpace s with
  | String c r => Some (c, r)
  | EmptyString => None
  end.

(** The members of an object after its opening brace, up to and
    including the closing brace.  Each member consumes input, so the
    length of the input is fuel enough. *)
Fixpoint members (fuel : nat) (s : string)
  : option (list (string * string) * string) :=
  match fuel with
  | O => None
  | S fuel' =>
      match literal s with
      | None => None
      | Some (k, s1) =>
          match punct s1 with
          | Some (c1, s2) =>
              if negb (Ascii.eqb c1 (ascii_of_nat 58)) then None
              else
                match literal s2 with
                | None => None
                | Some (v, s3) =>
                    match punct s3 with
                    | Some (c2, s4) =>
                        if Ascii.eqb c2 (ascii_of_nat 44) then
                          match members fuel' s4 with
                          | Some (l, s5) => Some ((k, v) :: l, s5)
                          | None => None
                          end
                        else if Ascii.eqb c2 (ascii_of_nat 125) then
                          Some ([(k, v)], s4)
                        else None
                    | None => None
                    end
                end
          | None => None
          end
      end
  end.

Definition object (s : string) : option (list (string * string)) :=
  match punct s with
  | Some (c, s1) =>
      if negb (Ascii.eqb c (ascii_of_nat 123)) then None
      else
        match punct s1 with
        | Some (c1, s2) =>
            if Ascii.eqb c1 (ascii_of_nat 125) then
              match skipSpace s2 with
              | EmptyString => Some []
              | _ => None
              end
            else
              match members (String.length s1) s1 with
              | Some (l, s3) =>
                  match skipSpace s3 with
                  | EmptyString => Some l
                  | _ => None
                  end
              | None => None
              end
        | None => None
        end
  | None => None
  end.

(** A member sets the field of its key; a later member overrides an
    earlier one and an unknown key is skipped. *)
Definition assign (m : stopHealMessage) (kv : string * string)
  : stopHealMessage :=
  let '(k, v) := kv in
  if String.eqb k "status" then mkStopHeal v (Alias m)
  else if String.eqb k "alias" then mkStopHeal (Status m) v
  else m.

(** Modelled from the spec: the reader of the machine-readable form is
    missing from the sources.  It parses a JSON object whose members are
    strings and fills the record from the keys [status] and [alias]. *)
Definition Unmarshal (s : string) : option stopHealMessage :=
  match object s with
  | Some l => Some (fold_left assign l (mkStopHeal "" ""))
  | None => None
  end.

End Json.

(** [stopHealMessage.JSON]: the encoder cannot fail on a record of two
    strings, so the [fatalIf] of the method never fires. *)
Definition JSON (s : stopHealMessage) : string := Json.MarshalIndent s.

(** ** [main.go]: the closest commands *)

Module Suggest.

(** The commands trie, as [findClosestCommands] uses it: the values
    below the node of a key, and the values of the whole tree.  The
    library walks a Go map, so the order of either list is not fixed. *)
Record CommandsTree : Type := mkTree {
  PrefixMatch : string -> list string;
  Walk : list string
}.

(** [sort.Strings]: ascending, bytes compared as unsigned numbers. *)
Fixpoint insertString (x : string) (l : list string) : list string :=
  match l with
  | [] => [x]
  | y :: r => if String.leb x y then x :: l else y :: insertString x r
  end.

Fixpoint sortStrings (l : list string) : list string :=
  match l with
  | [] => []
  | x :: r => insertString x (sortStrings r)
  end.

(** The order of [sort.Strings]. *)
Definition le (a b : string) : Prop := String.leb a b = true.

(** [sort.Search]: the loop halves the interval [i, j) while it is not
    empty; the interval shrinks at every turn, so [j - i] turns are
    enough. *)
Fixpoint searchLoop (fuel : nat) (f : nat -> bool) (i j : nat) : nat :=
  match fuel with
  | O => i
  | S fuel' =>
      if (i <? j)%nat then
        let h := ((i + j) / 2)%nat in
        if negb (f h) then searchLoop fuel' f (h + 1)%nat j
        else searchLoop fuel' f i h
      else i
  end.

Definition Search (n : nat) (f : nat -> bool) : nat :=
  searchLoop n f 0%nat n.

(** [sort.SearchStrings a x]: [Search] for the first [a[i] >= x]. *)
Definition SearchStrings (a : list string) (x : string) : nat :=
  Search (List.length a) (fun i => String.leb x (nth i a "")).

(** One turn of the second loop of [findClosestCommands]. *)
Definition consider (dist : string -> string -> Z) (command : string)
  (closestCommands : list string) (value : string) : list string :=
  if (SearchStrings closestCommands value <? List.length closestCommands)%nat
  then closestCommands
  else if (dist command value <? 2)%Z
       then (closestCommands ++ [value])%list
       else closestCommands.

Definition findClosestCommands (commandsTree : CommandsTree)
  (DamerauLevenshteinDistance : string -> string -> Z)
  (command : string) : list string :=
  let closestCommands := sortStrings (PrefixMatch commandsTree command) in
  fold_left (consider DamerauLevenshteinDistance command)
            (Walk commandsTree) closestCommands.

(** The contract of the trie: what [PrefixMatch] returns for a key is
    stored in the tree and starts with the key. *)
Definition trieContract (t : CommandsTree) : Prop :=
  forall key x, In x (PrefixMatch t key) ->
                In x (Walk t) /\ HasPrefix x key = true.

(** A reference distance for the examples: insertions, deletions,
    substitutions and transpositions of neighbours, computed from the
    ends of the two words. *)
Fixpoint listOf (s : string) : list ascii :=
  match s with
  | EmptyString => []
  | String c r => c :: listOf r
  end.

Definition min3 (a b c : nat) : nat := Nat.min a (Nat.min b c).

Fixpoint alignment (a : list ascii) : list ascii -> nat :=
  fix inner (b : list ascii) : nat :=
    match a, b with
    | [], _ => List.length b
    | _, [] => List.length a
    | x :: a', y :: b' =>
        let cost := if Ascii.eqb x y then 0%nat else 1%nat in
        let d := min3 (alignment a' b + 1) (inner b' + 1)
                      (alignment a' b' + cost) in
        match a', b' with
        | x2 :: a'', y2 :: b'' =>
            if Ascii.eqb x y2 && Ascii.eqb x2 y
            then Nat.min d (alignment a'' b'' + cost)
            else d
        | _, _ => d
        end
    end.

Definition distance (a b : string) : Z :=
  Z.of_nat (alignment (rev (listOf a)) (rev (listOf b))).

Definition sampleTree : CommandsTree :=
  let names := ["ls"; "mb"; "rb"; "cat"; "cp"; "rm"; "stat"; "share"] in
  {| PrefixMatch := fun key => filter (fun x => HasPrefix x key) names;
     Walk := names |}.

End Suggest.

(** ** More of [main.go] *)

Module MainGo.

Import Suggest.

Definition lineFeed : ascii := ascii_of_nat 10.

(** *** The second loop of [findClosestCommands], in closed form *)

(** The last name of a list, if there is one. *)
Fixpoint lastOf (l : list string) : option string :=
  match l with
  | [] => None
  | [x] => Some x
  | _ :: r => lastOf r
  end.

(** Going through the names from left to right, keep a name when it
    sorts strictly after the name on top. *)
Fixpoint climb (top : option string) (l : list string) : list string :=
  match l with
  | [] => []
  | v :: r =>
      match top with
      | None => v :: climb (Some v) r
      | Some m =>
          if String.leb v m then climb top r else v :: climb (Some v) r
      end
  end.

Definition within (dist : string -> string -> Z) (command value : string)
  : bool :=
  (dist command value <? 2)%Z.

(** *** [commandNotFound] *)

Definition notACommand (command : string) : string :=
  ("`" ++ command ++ "` is not a mc command. See `mc --help`.")%string.

Definition didYouMean : string :=
  String lineFeed
    (String lineFeed
       ("Did you mean one of these?" ++ String lineFeed "")%string).

(** The message of [commandNotFound], from the closest commands. *)
Definition commandNotFoundMessage (closestCommands : list string)
  (command : string) : string :=
  let msg := notACommand command in
  if (0 <? List.length closestCommands)%nat then
    let msg := (msg ++ didYouMean)%string in
    if (List.length closestCommands =? 1)%nat then
      let cmd := nth 0 closestCommands "" in
      (msg ++ ("        `" ++ cmd ++ "`"))%string
    else
      fold_left
        (fun msg cmd =>
           (msg ++ ("        `" ++ cmd ++ "`" ++ String lineFeed ""))%string)
        closestCommands msg
  else msg.

(** [commandNotFound]; [errDummy], of another file, is a parameter. *)
Definition commandNotFound (errDummy : option (error * list string))
  (commandsTree : CommandsTree) (dist : string -> string -> Z)
  (command : string) : Cmd.M unit :=
  let msg := notACommand command in
  let closestCommands := findClosestCommands commandsTree dist command in
  fatalIf (Trace errDummy [])
          (commandNotFoundMessage closestCommands command).

(** *** [checkConfig]: the report of the validation errors *)

(** The loop over [errMsgs]: it stops at the first index above ten. *)
Fixpoint configErrorLoop (index : nat) (errMsgs : list string)
  (errorMsg : string) : string :=
  match errMsgs with
  | [] => errorMsg
  | errMsg :: rest =>
      if (10 <? index)%nat then errorMsg
      else configErrorLoop (S index) rest
             (errorMsg ++ (errMsg ++ String lineFeed ""))%string
  end.

Definition configErrorReport (errMsgs : list string) : string :=
  configErrorLoop 0 errMsgs "".

(** *** Events of the functions of [main.go] *)

Inductive MainEvent : Type :=
| EvMainComplete
| EvProfileStart (mode : string)
| EvProfileStop (mode : string)
| EvProbeInit
| EvSetAppInfo (key value : string)
| EvSetGlobalQuiet
| EvSetGlobalTermWidth (w : Z)
| EvRunApp (appName : string) (args : list string)
| EvPrompt (text : string)
| EvCompletionInstall (name : string)
| EvErrorIf (cause : error) (msg : string)
| EvInfoln (text : string)
| EvPrintUpdate (status text : string)
| EvShowAppHelp.

(** How a function of [main.go] ends: it returns, the process exits, the
    function panics, or it is still waiting for input. *)
Inductive Ending : Type :=
| Finished
| ExitStatus (code : Z)
| Panicked
| Waiting.

(** *** [installAutoCompletion] *)

Record CompletionEnv : Type := mkCompletionEnv {
  noAutocompletion : bool;
  globalNoAutocompletion : bool;
  globalQuiet : bool;
  globalJSON : bool;
  IsTerminal : bool;
  GOOS : string;
  IsInstalled : bool;
  Install : option error
}.

(** The tests that make [installAutoCompletion] return at once. *)
Definition completionSkipped (env : CompletionEnv) : bool :=
  (noAutocompletion env || globalNoAutocompletion env)
  || (globalQuiet env || globalJSON env || negb (IsTerminal env))
  || String.eqb (GOOS env) "windows"
  || IsInstalled env.

Definition promptText : string :=
  "Install mc auto-completion in your shell ? (y/n): ".

Definition isYes (char : N) : bool := (char =? 121)%N || (char =? 89)%N.
Definition isNo (char : N) : bool := (char =? 110)%N || (char =? 78)%N.

(** The [for] loop.  Every turn prints the question and reads one rune
    from a new reader; [reads] holds what [ReadRune] gives turn after
    turn, [None] for an error.  When [reads] is used up the loop has
    asked once more and waits. *)
Fixpoint promptLoop (env : CompletionEnv) (reads : list (option N))
  : list MainEvent * Ending :=
  match reads with
  | [] => ([EvPrompt promptText], Waiting)
  | None :: rest =>
      let '(t, e) := promptLoop env rest in (EvPrompt promptText :: t, e)
  | Some char :: rest =>
      if isYes char then
        ([EvPrompt promptText; EvCompletionInstall "mc";
          match Install env with
          | Some err => EvErrorIf err "Unable to install mc auto-completion."
          | None =>
              EvInfoln
                "Auto-completion installed! Kindly restart your shell to load it."
          end],
         Finished)
      else if isNo char then ([EvPrompt promptText], Finished)
      else
        let '(t, e) := promptLoop env rest in (EvPrompt promptText :: t, e)
  end.

Definition installAutoCompletion (env : CompletionEnv)
  (reads : list (option N)) : list MainEvent * Ending :=
  if noAutocompletion env || globalNoAutocompletion env then ([], Finished)
  else if globalQuiet env || globalJSON env || negb (IsTerminal env)
  then ([], Finished)
  else if String.eqb (GOOS env) "windows" then ([], Finished)
  else if IsInstalled env then ([], Finished)
  else promptLoop env reads.

(** The first read that answers the question. *)
Fixpoint firstAnswer (reads : list (option N)) : option N :=
  match reads with
  | [] => None
  | None :: rest => firstAnswer rest
  | Some char :: rest =>
      if isYes char || isNo char then Some char else firstAnswer rest
  end.

Definition isPrompt (e : MainEvent) : bool :=
  match e with EvPrompt _ => true | _ => false end.

Definition isCompletionInstall (e : MainEvent) : bool :=
  match e with EvCompletionInstall _ => true | _ => false end.

(** *** [checkUpdate] and the action of the application *)

Record UpdateEnv : Type := mkUpdateEnv {
  quiet : bool;
  globalQuietFlag : bool;
  ReleaseTag : string;
  getUpdateInfo : string * Z * Z * option error;
  prepareUpdateMessage : string -> Z -> string
}.

Definition checkUpdate (env : UpdateEnv) : list MainEvent :=
  if quiet env || globalQuietFlag env then
    let '(updateMsg, currentReleaseTime, latestReleaseTime, err) :=
      getUpdateInfo env in
    match err with
    | None => [EvPrintUpdate "success" updateMsg]
    | Some _ =>
        [EvPrintUpdate "success"
           (prepareUpdateMessage env "Run `mc update`"
              (latestReleaseTime - currentReleaseTime)%Z)]
    end
  else [].

(** [app.Action] of [registerApp]. *)
Definition appAction (env : UpdateEnv) : list MainEvent :=
  ((if HasPrefix (ReleaseTag env) "RELEASE." then checkUpdate env else [])
   ++ [EvShowAppHelp])%list.

Definition isPrintUpdate (e : MainEvent) : bool :=
  match e with EvPrintUpdate _ _ => true | _ => false end.

(** *** [Main] *)

Record MainEnv : Type := mkMainEnv {
  MC_PROFILER : string;
  GetTerminalWidth : Z * option error;
  Base : string -> string;
  Run : string -> list string -> option error;
  mainReleaseTag : string;
  ShortCommitID : string
}.




Definition isProfileStart (e : MainEvent) : bool :=
  match e with EvProfileStart _ => true | _ => false end.


(** Examples. *)
Definition askingEnv : CompletionEnv :=
  {| noAutocompletion := false; globalNoAutocompletion := false;
     globalQuiet := false; globalJSON := false; IsTerminal := true;
     GOOS := "linux"; IsInstalled := false; Install := None |}.

Definition releaseEnv (q : bool) : UpdateEnv :=
  {| quiet := q; globalQuietFlag := false;
     ReleaseTag := "RELEASE.2019-08-07T23-14-43Z";
     getUpdateInfo := ("update available", 0%Z, 5%Z, None);
     prepareUpdateMessage := fun cmd _ => cmd |}.

Definition profilingEnv (runError : option error) : MainEnv :=
  {| MC_PROFILER := "cpu";
     GetTerminalWidth := (80%Z, None);
     Base := fun s => s;
     Run := fun _ _ => runError;
     mainReleaseTag := "RELEASE.2019-08-07T23-14-43Z";
     ShortCommitID := "abcdef" |}.

End MainGo.

(** ** More of [admin-heal.go]: what the options do not decide *)

(** An event with the heal options taken out. *)
Definition neutralOpts : HealOpts :=
  {| Recursive := false; DryRun := false; Remove := false;
     ScanMode := HealNormalScan |}.

Definition withoutOpts (e : Event) : Event :=
  match e with
  | EvHeal bucket prefix _ token forceStart forceStop =>
      EvHeal bucket prefix neutralOpts token forceStart forceStop
  | EvDisplayAndFollowHealStatus ui aliasedURL =>
      EvDisplayAndFollowHealStatus
        {| uiBucket := uiBucket ui; uiPrefix := uiPrefix ui;
           uiClientToken := uiClientToken ui;
           uiForceStart := uiForceStart ui;
           uiHealOpts := neutralOpts;
           ObjectsByOnlineDrives := ObjectsByOnlineDrives ui;
           HealthCols := HealthCols ui |}
        aliasedURL
  | _ => e
  end.

(** A server and a follower that answer the same whatever the options. *)
Definition optionBlind (env : Env) : Prop :=
  (forall bucket prefix o o' token forceStart forceStop,
      Heal env bucket prefix o token forceStart forceStop
      = Heal env bucket prefix o' token forceStart forceStop)
  /\ (forall ui ui' aliasedURL,
         uiBucket ui = uiBucket ui' -> uiPrefix ui = uiPrefix ui' ->
         uiClientToken ui = uiClientToken ui' ->
         uiForceStart ui = uiForceStart ui' ->
         DisplayAndFollowHealStatus env ui aliasedURL
         = DisplayAndFollowHealStatus env ui' aliasedURL).

Definition isServerCall (e : Event) : bool :=
  match e with
  | EvBackgroundHealStatus | EvHeal _ _ _ _ _ _
  | EvDisplayAndFollowHealStatus _ _ => true
  | _ => false
  end.

(** * Properties *)

(** ** The syntax check *)

Lemma checkAdminHealSyntax_accepts (ctx : Context) :
  syntaxOK ctx = true ->
  checkAdminHealSyntax ctx = ([], Returned tt).
Proof.
  unfold syntaxOK, recognizedScan, checkAdminHealSyntax.
  intros H. apply andb_prop in H. destruct H as [Hlen Hscan].
  rewrite Hlen. cbn.
  apply orb_prop in Hscan. destruct Hscan as [Hs | Hs]; rewrite Hs; cbn.
  - reflexivity.
  - rewrite andb_false_r. reflexivity.
Qed.

Lemma checkAdminHealSyntax_rejects (ctx : Context) :
  syntaxOK ctx = false ->
  checkAdminHealSyntax ctx =
    ([EvShowCommandHelpAndExit "heal" 1%Z], Exited 1%Z).
Proof.
  unfold syntaxOK, recognizedScan, checkAdminHealSyntax.
  intros H. apply andb_false_iff in H. destruct H as [Hlen | Hscan].
  - rewrite Hlen. reflexivity.
  - destruct (List.length (Args ctx) =? 1)%nat; cbn; [| reflexivity].
    apply orb_false_elim in Hscan. destruct Hscan as [H1 H2].
    rewrite H1, H2. reflexivity.
Qed.

(** ** The four ways a run goes on after the syntax check *)

Lemma run_rejected (env : Env) (ctx : Context) :
  syntaxOK ctx = false ->
  mainAdminHeal env ctx =
    ([EvShowCommandHelpAndExit "heal" 1%Z], Exited 1%Z).
Proof.
  intros H. unfold mainAdminHeal.
  rewrite (checkAdminHealSyntax_rejects ctx H). reflexivity.
Qed.

Lemma run_no_client (env : Env) (ctx : Context) (e : error) :
  syntaxOK ctx = true ->
  newAdminClient env (target ctx) = Some e ->
  mainAdminHeal env ctx =
    ((prelude ctx ++
      [EvFatal e [target ctx] "Cannot initialize admin client."])%list,
     Exited 1%Z).
Proof.
  intros Hs Hc. unfold mainAdminHeal.
  rewrite (checkAdminHealSyntax_accepts ctx Hs).
  fold (target ctx). rewrite Hc. reflexivity.
Qed.

Lemma run_background (env : Env) (ctx : Context) :
  syntaxOK ctx = true ->
  newAdminClient env (target ctx) = None ->
  backgroundOnly env ctx = true ->
  mainAdminHeal env ctx =
    match snd (BackgroundHealStatus env) with
    | None =>
        ((prelude ctx ++
          [EvBackgroundHealStatus;
           EvPrintMsg (MsgBackgroundHealStatus
                         (mkBgMsg "success"
                                  (fst (BackgroundHealStatus env))))])%list,
         Returned None)
    | Some e =>
        ((prelude ctx ++
          [EvBackgroundHealStatus;
           EvFatal e []
             "Failed to get the status of the background heal."])%list,
         Exited 1%Z)
    end.
Proof.
  intros Hs Hc Hb. unfold mainAdminHeal.
  rewrite (checkAdminHealSyntax_accepts ctx Hs).
  fold (target ctx). rewrite Hc.
  unfold backgroundOnly, bucketOf, scopeOf in Hb. cbn [fst] in Hb.
  cbv zeta. rewrite Hb.
  destruct (BackgroundHealStatus env) as [st [e |]]; reflexivity.
Qed.

Lemma run_stop (env : Env) (ctx : Context) :
  syntaxOK ctx = true ->
  newAdminClient env (target ctx) = None ->
  backgroundOnly env ctx = false ->
  ctxBool ctx "force-stop" = true ->
  mainAdminHeal env ctx =
    match snd (stopResult env ctx) with
    | None =>
        ((prelude ctx ++
          [EvHeal (bucketOf env ctx) (prefixOf env ctx) (optsOf ctx) ""
                  (ctxBool ctx "force-start") true;
           EvPrintMsg (MsgStopHeal
                         (mkStopHeal "success" (locator env ctx)))])%list,
         Returned None)
    | Some e =>
        ((prelude ctx ++
          [EvHeal (bucketOf env ctx) (prefixOf env ctx) (optsOf ctx) ""
                  (ctxBool ctx "force-start") true;
           EvFatal e [] "Failed to stop heal sequence."])%list,
         Exited 1%Z)
    end.
Proof.
  intros Hs Hc Hb Hf. unfold mainAdminHeal.
  rewrite (checkAdminHealSyntax_accepts ctx Hs).
  fold (target ctx). rewrite Hc.
  unfold stopResult, prefixOf, optsOf, locator.
  unfold backgroundOnly in Hb. unfold bucketOf, scopeOf in *.
  cbn [fst snd] in *. cbv zeta. rewrite Hb, Hf.
  match goal with
  | |- context [Heal ?a ?b ?c ?d ?e ?f ?g] =>
      destruct (Heal a b c d e f g) as [[st ts] [e' |]]
  end; reflexivity.
Qed.

Lemma run_start (env : Env) (ctx : Context) :
  syntaxOK ctx = true ->
  newAdminClient env (target ctx) = None ->
  backgroundOnly env ctx = false ->
  ctxBool ctx "force-stop" = false ->
  mainAdminHeal env ctx =
    let start := EvHeal (bucketOf env ctx) (prefixOf env ctx) (optsOf ctx) ""
                        (ctxBool ctx "force-start") false in
    let follow := EvDisplayAndFollowHealStatus (uiOf env ctx)
                                                (locator env ctx) in
    match snd (startResult env ctx) with
    | Some e =>
        ((prelude ctx ++
          [start; EvFatal e [] "Failed to start heal sequence."])%list,
         Exited 1%Z)
    | None =>
        match snd (followResult env ctx) with
        | None => ((prelude ctx ++ [start; follow])%list, Returned None)
        | Some e =>
            let res := fst (followResult env ctx) in
            ((prelude ctx ++
              [start; follow;
               EvFatal e
                 (if negb (String.eqb (FailureDetail res) "")
                  then [locator env ctx; MarshalIndentTaskStatus env res]
                  else [locator env ctx])
                 "Unable to display heal status."])%list,
             Exited 1%Z)
        end
    end.
Proof.
  intros Hs Hc Hb Hf. unfold mainAdminHeal.
  rewrite (checkAdminHealSyntax_accepts ctx Hs).
  fold (target ctx). rewrite Hc.
  unfold followResult, uiOf, startResult, prefixOf, optsOf, locator.
  unfold backgroundOnly in Hb. unfold bucketOf, scopeOf in *.
  cbn [fst snd] in *. cbv zeta. rewrite Hb, Hf.
  match goal with
  | |- context [Heal ?a ?b ?c ?d ?e ?f ?g] =>
      destruct (Heal a b c d e f g) as [[st ts] [e' |]]
  end; [reflexivity |].
  cbn [fst snd].
  match goal with
  | |- context [DisplayAndFollowHealStatus ?a ?b ?c] =>
      destruct (DisplayAndFollowHealStatus a b c) as [res [e' |]]
  end; [| reflexivity].
  cbn [fst snd].
  destruct (negb (String.eqb (FailureDetail res) "")); reflexivity.
Qed.

Lemma prelude_healCalls (ctx : Context) (t : list Event) :
  healCalls (prelude ctx ++ t) = healCalls t.
Proof. reflexivity. Qed.

Lemma prelude_pollCalls (ctx : Context) (t : list Event) :
  pollCalls (prelude ctx ++ t) = pollCalls t.
Proof. reflexivity. Qed.

Lemma prelude_backgroundCalls (ctx : Context) (t : list Event) :
  backgroundCalls (prelude ctx ++ t) = backgroundCalls t.
Proof. reflexivity. Qed.

Lemma prelude_printed (ctx : Context) (t : list Event) :
  printed (prelude ctx ++ t) = printed t.
Proof. reflexivity. Qed.

(** Every run is one of the five above. *)
Ltac run_cases env ctx :=
  let Hs := fresh "Hs" in
  let Hc := fresh "Hc" in
  let Hb := fresh "Hb" in
  let Hf := fresh "Hf" in
  destruct (syntaxOK ctx) eqn:Hs;
  [ destruct (newAdminClient env (target ctx)) eqn:Hc;
    [ rewrite (run_no_client env ctx _ Hs Hc) in *
    | destruct (backgroundOnly env ctx) eqn:Hb;
      [ rewrite (run_background env ctx Hs Hc Hb) in *
      | destruct (ctxBool ctx "force-stop") eqn:Hf;
        [ rewrite (run_stop env ctx Hs Hc Hb Hf) in *
        | rewrite (run_start env ctx Hs Hc Hb Hf) in * ] ] ]
  | rewrite (run_rejected env ctx Hs) in * ].

(** ** Force stop *)

(** C1, as stated, fails: a force stop on a target without a bucket and
    without [--recursive] passes the syntax check, builds the client and
    then takes the background-status branch; no [Heal] call is made. *)
Lemma force_stop_without_bucket_makes_no_heal_call :
  let ctx := mkCtx ["myminio"] "normal" ["force-stop"] in
  ctxBool ctx "force-stop" = true /\
  healCalls (trace (mainAdminHeal unixEnv ctx)) = [] /\
  backgroundCalls (trace (mainAdminHeal unixEnv ctx))
  = [EvBackgroundHealStatus].
Proof. repeat split. Qed.

(** C1, amended: when the syntax is accepted, the admin client is built
    and the target has a bucket or [--recursive] is given, a run with
    [--force-stop] makes exactly one [Heal] call, with [forceStop = true],
    an empty token and the force-start flag as given, makes no background
    query and never follows the sequence, whether or not force start is
    set and whether or not the call succeeds. *)
Theorem force_stop_single_call (env : Env) (ctx : Context) :
  syntaxOK ctx = true ->
  newAdminClient env (target ctx) = None ->
  backgroundOnly env ctx = false ->
  ctxBool ctx "force-stop" = true ->
  healCalls (trace (mainAdminHeal env ctx))
  = [EvHeal (bucketOf env ctx) (prefixOf env ctx) (optsOf ctx) ""
            (ctxBool ctx "force-start") true]
  /\ pollCalls (trace (mainAdminHeal env ctx)) = []
  /\ backgroundCalls (trace (mainAdminHeal env ctx)) = [].
Proof.
  intros Hs Hc Hb Hf. rewrite (run_stop env ctx Hs Hc Hb Hf).
  destruct (snd (stopResult env ctx)); unfold trace; cbn [fst];
    rewrite prelude_healCalls, prelude_pollCalls, prelude_backgroundCalls;
    repeat split.
Qed.

Lemma force_stop_single_call_witness :
  let ctx := mkCtx ["myminio/bucket/dir"] "normal"
                   ["force-stop"; "force-start"] in
  healCalls (trace (mainAdminHeal unixEnv ctx))
  = [EvHeal "bucket" "dir" (mkHealOpts false false false HealNormalScan) ""
            true true]
  /\ pollCalls (trace (mainAdminHeal unixEnv ctx)) = []
  /\ backgroundCalls (trace (mainAdminHeal unixEnv ctx)) = [].
Proof.
  exact (force_stop_single_call unixEnv
           (mkCtx ["myminio/bucket/dir"] "normal"
                  ["force-stop"; "force-start"])
           eq_refl eq_refl eq_refl eq_refl).
Defined.

(** ** The background status *)

(** C2, as stated, fails where the status query itself fails: the run
    ends in [fatalIf] and no summary is rendered. *)
Lemma background_query_failure_renders_nothing :
  let ctx := mkCtx ["myminio"] "normal" [] in
  bucketOf failingBackgroundEnv ctx = "" /\
  ctxBool ctx "recursive" = false /\
  printed (trace (mainAdminHeal failingBackgroundEnv ctx)) = [] /\
  outcome (mainAdminHeal failingBackgroundEnv ctx) = Exited 1%Z.
Proof. repeat split. Qed.

(** C2, amended: when the syntax is accepted, the admin client is built,
    the parsed bucket is empty and [--recursive] is not given, the run
    makes exactly one [BackgroundHealStatus] call and no [Heal] call and
    does not follow a sequence; if the query succeeds the run renders the
    background summary and returns right after, and if it fails the run
    ends fatally and renders nothing. *)
Theorem background_status_only (env : Env) (ctx : Context) :
  syntaxOK ctx = true ->
  newAdminClient env (target ctx) = None ->
  bucketOf env ctx = "" ->
  ctxBool ctx "recursive" = false ->
  let run := mainAdminHeal env ctx in
  backgroundCalls (trace run) = [EvBackgroundHealStatus]
  /\ healCalls (trace run) = []
  /\ pollCalls (trace run) = []
  /\ match snd (BackgroundHealStatus env) with
     | None =>
         let summary :=
           EvPrintMsg (MsgBackgroundHealStatus
                         (mkBgMsg "success"
                                  (fst (BackgroundHealStatus env)))) in
         printed (trace run) = [summary]
         /\ (exists t, trace run = (t ++ [summary])%list)
         /\ outcome run = Returned None
     | Some e =>
         printed (trace run) = []
         /\ outcome run = Exited 1%Z
     end.
Proof.
  intros Hs Hc Hbk Hr run.
  assert (Hb : backgroundOnly env ctx = true).
  { unfold backgroundOnly. rewrite Hbk, Hr. reflexivity. }
  subst run. rewrite (run_background env ctx Hs Hc Hb).
  destruct (snd (BackgroundHealStatus env)); unfold trace, outcome;
    cbn [fst snd];
    rewrite prelude_healCalls, prelude_pollCalls, prelude_backgroundCalls,
      prelude_printed;
    repeat split.
  eexists (prelude ctx ++ [EvBackgroundHealStatus])%list.
  rewrite <- app_assoc. reflexivity.
Qed.

Lemma background_status_only_witness :
  let run := mainAdminHeal unixEnv (mkCtx ["myminio"] "deep" ["dry-run"]) in
  backgroundCalls (trace run) = [EvBackgroundHealStatus]
  /\ healCalls (trace run) = []
  /\ pollCalls (trace run) = []
  /\ printed (trace run)
     = [EvPrintMsg (MsgBackgroundHealStatus
                      (mkBgMsg "success" (mkBgHealState 0 0)))].
Proof.
  pose proof (background_status_only unixEnv
                (mkCtx ["myminio"] "deep" ["dry-run"])
                eq_refl eq_refl eq_refl eq_refl) as H.
  cbv zeta in H. destruct H as (H1 & H2 & H3 & H4).
  cbn [snd BackgroundHealStatus unixEnv quietEnv] in H4.
  destruct H4 as (H4 & _).
  repeat split; assumption.
Defined.

(** ** Starting a sequence *)

Lemma transformScanArg_deep (scanArg : string) :
  transformScanArg scanArg = HealDeepScan <-> scanArg = "deep".
Proof.
  unfold transformScanArg.
  destruct (String.eqb scanArg "deep") eqn:E.
  - apply String.eqb_eq in E. tauto.
  - apply String.eqb_neq in E. split; [discriminate | tauto].
Qed.

Lemma in_prelude_heal (ctx : Context) (e : Event) :
  In e (prelude ctx) -> isHeal e = false.
Proof.
  unfold prelude. cbn [In]. intros H.
  repeat (destruct H as [H | H]; [subst e; reflexivity |]).
  destruct H.
Qed.

Lemma in_prelude_poll (ctx : Context) (e : Event) :
  In e (prelude ctx) -> isPoll e = false.
Proof.
  unfold prelude. cbn [In]. intros H.
  repeat (destruct H as [H | H]; [subst e; reflexivity |]).
  destruct H.
Qed.

(** A [Heal] event of a run is the stop call of the force-stop branch or
    the start call of the last branch. *)
Lemma heal_event_of_run (env : Env) (ctx : Context) (e : Event) :
  In e (trace (mainAdminHeal env ctx)) ->
  isHeal e = true ->
  syntaxOK ctx = true
  /\ newAdminClient env (target ctx) = None
  /\ backgroundOnly env ctx = false
  /\ e = EvHeal (bucketOf env ctx) (prefixOf env ctx) (optsOf ctx) ""
                (ctxBool ctx "force-start") (ctxBool ctx "force-stop").
Proof.
  intros Hin Hheal. run_cases env ctx.
  - unfold trace in Hin. cbn [fst] in Hin. apply in_app_or in Hin.
    destruct Hin as [Hin | [Hin | []]].
    + apply in_prelude_heal in Hin. congruence.
    + subst e. discriminate.
  - destruct (snd (BackgroundHealStatus env)); unfold trace in Hin;
      cbn [fst] in Hin; apply in_app_or in Hin;
      (destruct Hin as [Hin | [Hin | [Hin | []]]];
       [apply in_prelude_heal in Hin; congruence
       | subst e; discriminate | subst e; discriminate]).
  - destruct (snd (stopResult env ctx)); unfold trace in Hin;
      cbn [fst] in Hin; apply in_app_or in Hin;
      (destruct Hin as [Hin | [Hin | [Hin | []]]];
       [apply in_prelude_heal in Hin; congruence
       | subst e; repeat split | subst e; discriminate]).
  - cbv zeta in Hin.
    destruct (snd (startResult env ctx)); [| destruct (snd (followResult env ctx))];
      unfold trace in Hin; cbn [fst] in Hin; apply in_app_or in Hin;
      (destruct Hin as [Hin | Hin];
       [apply in_prelude_heal in Hin; congruence |]);
      cbn [In] in Hin;
      repeat (destruct Hin as [Hin | Hin];
              [subst e; first [discriminate | repeat split] |]);
      destruct Hin.
  - unfold trace in Hin. cbn [fst] in Hin.
    destruct Hin as [Hin | []]. subst e. discriminate.
Qed.

(** C3: a start call, that is a [Heal] call of a run with
    [forceStop = false], carries the empty continuation token, the
    force-start flag as given, and options built from the flags: the scan
    mode is deep when the scan flag is ["deep"] and normal otherwise, and
    [Recursive], [DryRun] and [Remove] are the flags of these names. *)
Theorem start_call_arguments (env : Env) (ctx : Context)
  (bucket prefix : string) (opts : HealOpts) (token : string)
  (forceStart : bool) :
  In (EvHeal bucket prefix opts token forceStart false)
     (trace (mainAdminHeal env ctx)) ->
  token = ""
  /\ forceStart = ctxBool ctx "force-start"
  /\ ScanMode opts = (if String.eqb (ctxString ctx "scan") "deep"
                      then HealDeepScan else HealNormalScan)
  /\ Recursive opts = ctxBool ctx "recursive"
  /\ DryRun opts = ctxBool ctx "dry-run"
  /\ Remove opts = ctxBool ctx "remove"
  /\ bucket = bucketOf env ctx
  /\ prefix = prefixOf env ctx.
Proof.
  intros Hin.
  destruct (heal_event_of_run env ctx _ Hin eq_refl) as (_ & _ & _ & He).
  injection He as -> -> -> -> -> _.
  repeat split.
Qed.

Lemma start_call_arguments_witness :
  let ctx := mkCtx ["myminio/bucket/dir/"] "deep" ["recursive"] in
  In (EvHeal "bucket" "dir/" (mkHealOpts true false false HealDeepScan) ""
             false false)
     (trace (mainAdminHeal unixEnv ctx))
  /\ ScanMode (mkHealOpts true false false HealDeepScan)
     = (if String.eqb (ctxString ctx "scan") "deep"
        then HealDeepScan else HealNormalScan).
Proof.
  assert (Hin : In (EvHeal "bucket" "dir/"
                           (mkHealOpts true false false HealDeepScan) ""
                           false false)
                   (trace (mainAdminHeal unixEnv
                             (mkCtx ["myminio/bucket/dir/"] "deep"
                                    ["recursive"])))).
  { vm_compute. do 6 right. left. reflexivity. }
  split; [exact Hin |].
  exact (proj1 (proj2 (proj2 (start_call_arguments _ _ _ _ _ _ _ Hin)))).
Defined.

(** ** Invalid invocations *)

(** C4: with an argument count other than one, or a scan flag that is
    neither of the two recognized values (compared as the check compares
    them, in lower case), the run shows the help of [heal] and exits with
    code 1; it does nothing else, so no admin client is built and no call
    reaches the server. *)
Theorem invalid_invocation_aborts (env : Env) (ctx : Context) :
  List.length (Args ctx) <> 1%nat
  \/ recognizedScan (ctxString ctx "scan") = false ->
  trace (mainAdminHeal env ctx) = [EvShowCommandHelpAndExit "heal" 1%Z]
  /\ outcome (mainAdminHeal env ctx) = Exited 1%Z
  /\ networkCalls (trace (mainAdminHeal env ctx)) = [].
Proof.
  intros H.
  assert (Hs : syntaxOK ctx = false).
  { unfold syntaxOK. destruct H as [H | H].
    - apply Nat.eqb_neq in H. rewrite H. reflexivity.
    - rewrite H. apply andb_false_r. }
  rewrite (run_rejected env ctx Hs). repeat split.
Qed.

Lemma invalid_invocation_aborts_witness :
  let ctx := mkCtx ["myminio"; "extra"] "normal" [] in
  trace (mainAdminHeal unixEnv ctx) = [EvShowCommandHelpAndExit "heal" 1%Z]
  /\ outcome (mainAdminHeal unixEnv ctx) = Exited 1%Z
  /\ networkCalls (trace (mainAdminHeal unixEnv ctx)) = [].
Proof.
  apply (invalid_invocation_aborts unixEnv
           (mkCtx ["myminio"; "extra"] "normal" [])).
  left. simpl. lia.
Defined.

(** ** Following the sequence *)

(** C5: when the follower was called and returned an error, the run is
    fatal and does not call it again: the follow call is the only one of
    the run and the fatal report comes right after it, then the process
    exits with status 1.  With a non-empty [FailureDetail] in the result
    the report carries the locator and the JSON text of the result, as
    the encoder gave it; with an empty one it carries the locator only. *)
Theorem follow_error_is_fatal (env : Env) (ctx : Context)
  (ui : uiData) (aliasedURL : string) (e : error) :
  In (EvDisplayAndFollowHealStatus ui aliasedURL)
     (trace (mainAdminHeal env ctx)) ->
  snd (DisplayAndFollowHealStatus env ui aliasedURL) = Some e ->
  let res := fst (DisplayAndFollowHealStatus env ui aliasedURL) in
  let context :=
    if String.eqb (FailureDetail res) ""
    then [aliasedURL]
    else [aliasedURL; MarshalIndentTaskStatus env res] in
  aliasedURL = locator env ctx
  /\ outcome (mainAdminHeal env ctx) = Exited 1%Z
  /\ pollCalls (trace (mainAdminHeal env ctx))
     = [EvDisplayAndFollowHealStatus ui aliasedURL]
  /\ exists t,
       trace (mainAdminHeal env ctx)
       = (t ++ [EvDisplayAndFollowHealStatus ui aliasedURL;
                EvFatal e context "Unable to display heal status."])%list.
Proof.
  intros Hin He res context.
  assert (Hpre : forall t,
             In (EvDisplayAndFollowHealStatus ui aliasedURL)
                (prelude ctx ++ t)%list ->
             In (EvDisplayAndFollowHealStatus ui aliasedURL) t).
  { intros t H. apply in_app_or in H. destruct H as [H | H]; [| exact H].
    apply in_prelude_poll in H. discriminate. }
  run_cases env ctx; unfold trace in Hin; cbn [fst] in Hin.
  - apply Hpre in Hin. destruct Hin as [Hin | []]. discriminate.
  - destruct (snd (BackgroundHealStatus env)); cbn [fst] in Hin;
      apply Hpre in Hin;
      destruct Hin as [Hin | [Hin | []]]; discriminate.
  - destruct (snd (stopResult env ctx)); cbn [fst] in Hin;
      apply Hpre in Hin;
      destruct Hin as [Hin | [Hin | []]]; discriminate.
  - cbv zeta in *.
    destruct (snd (startResult env ctx)).
    { cbn [fst] in Hin. apply Hpre in Hin.
      destruct Hin as [Hin | [Hin | []]]; discriminate. }
    assert (Hev : ui = uiOf env ctx /\ aliasedURL = locator env ctx).
    { destruct (snd (followResult env ctx)); cbn [fst] in Hin;
        apply Hpre in Hin; cbn [In] in Hin;
        repeat (destruct Hin as [Hin | Hin];
                [first [discriminate | injection Hin as <- <-; split;
                                        reflexivity] |]);
        destruct Hin. }
    destruct Hev as [-> ->]. fold (followResult env ctx) in He.
    subst res context. fold (followResult env ctx).
    rewrite He. unfold trace, outcome. cbn [fst snd].
    rewrite prelude_pollCalls.
    split; [reflexivity |]. split; [reflexivity |]. split; [reflexivity |].
    exists (prelude ctx ++
            [EvHeal (bucketOf env ctx) (prefixOf env ctx) (optsOf ctx) ""
                    (ctxBool ctx "force-start") false])%list.
    rewrite <- app_assoc. cbn [app].
    destruct (String.eqb (FailureDetail (fst (followResult env ctx))) "");
      reflexivity.
  - destruct Hin as [Hin | []]. discriminate.
Qed.

Lemma follow_error_is_fatal_witness :
  let env := failingFollowEnv "disk offline" in
  let ctx := mkCtx ["myminio/bucket"] "normal" [] in
  outcome (mainAdminHeal env ctx) = Exited 1%Z
  /\ exists t,
       trace (mainAdminHeal env ctx)
       = (t ++ [EvDisplayAndFollowHealStatus (uiOf env ctx) "myminio/bucket";
                EvFatal "heal had an error"
                        ["myminio/bucket"; "disk offline"]
                        "Unable to display heal status."])%list.
Proof.
  intros env ctx.
  assert (Hin : In (EvDisplayAndFollowHealStatus (uiOf env ctx)
                                                 "myminio/bucket")
                   (trace (mainAdminHeal env ctx))).
  { vm_compute. do 7 right. left. reflexivity. }
  destruct (follow_error_is_fatal env ctx (uiOf env ctx) "myminio/bucket"
              "heal had an error" Hin eq_refl) as (_ & Ho & _ & Ht).
  split; [exact Ho | exact Ht].
Defined.

(** ** The scan flag *)

Lemma ToLower_DEEP : ToLower "DEEP" = "deep" /\ ToLower "Deep" = "deep".
Proof. split; reflexivity. Qed.

(** C8: a scan flag that spells deep in any mix of cases other than plain
    lower case is accepted by the syntax check, which lowers it before
    comparing, and is mapped to the normal scan mode by
    [transformScanArg], which compares it as given and answers deep for
    ["deep"] alone; so every [Heal] call of such a run carries the normal
    scan mode. *)
Theorem mixed_case_deep_scans_normal (env : Env) (ctx : Context) :
  ToLower (ctxString ctx "scan") = "deep" ->
  ctxString ctx "scan" <> "deep" ->
  recognizedScan (ctxString ctx "scan") = true
  /\ (List.length (Args ctx) = 1%nat ->
      checkAdminHealSyntax ctx = ([], Returned tt))
  /\ transformScanArg (ctxString ctx "scan") = HealNormalScan
  /\ (forall s, transformScanArg s = HealDeepScan <-> s = "deep")
  /\ (forall bucket prefix opts token forceStart forceStop,
        In (EvHeal bucket prefix opts token forceStart forceStop)
           (trace (mainAdminHeal env ctx)) ->
        ScanMode opts = HealNormalScan).
Proof.
  intros Hlow Hneq.
  assert (Hrec : recognizedScan (ctxString ctx "scan") = true).
  { unfold recognizedScan. rewrite Hlow. reflexivity. }
  assert (Hnorm : transformScanArg (ctxString ctx "scan") = HealNormalScan).
  { destruct (transformScanArg (ctxString ctx "scan")) eqn:E;
      [reflexivity |].
    apply transformScanArg_deep in E. contradiction. }
  split; [exact Hrec |]. split.
  { intros Hlen. apply checkAdminHealSyntax_accepts.
    unfold syntaxOK. rewrite Hlen, Hrec. reflexivity. }
  split; [exact Hnorm |]. split; [exact transformScanArg_deep |].
  intros bucket prefix opts token forceStart forceStop Hin.
  destruct (heal_event_of_run env ctx _ Hin eq_refl) as (_ & _ & _ & He).
  injection He as _ _ -> _ _ _. exact Hnorm.
Qed.

Lemma mixed_case_deep_scans_normal_witness :
  let ctx := mkCtx ["myminio/bucket"] "DEEP" [] in
  checkAdminHealSyntax ctx = ([], Returned tt)
  /\ transformScanArg "DEEP" = HealNormalScan
  /\ healCalls (trace (mainAdminHeal unixEnv ctx))
     = [EvHeal "bucket" "" (mkHealOpts false false false HealNormalScan) ""
               false false].
Proof.
  intros ctx.
  assert (Hneq : ctxString ctx "scan" <> "deep") by discriminate.
  destruct (mixed_case_deep_scans_normal unixEnv ctx eq_refl Hneq)
    as (_ & Hsyn & Hnorm & _ & _).
  split; [exact (Hsyn eq_refl) |]. split; [exact Hnorm | reflexivity].
Defined.

(** ** The return value *)

(** C9: [mainAdminHeal] never hands a non-nil error to its caller.  On
    each of its failure paths (syntax, client construction, background
    query, stop, start, follow) the process exits with status 1 and the
    last thing it did was the help of [ShowCommandHelpAndExit] or the
    report of [fatalIf]; without a failure it returns nil and neither of
    the two was called. *)
Theorem mainAdminHeal_returns_nil (env : Env) (ctx : Context) :
  (forall e, outcome (mainAdminHeal env ctx) <> Returned (Some e))
  /\ match failureOf env ctx with
     | None =>
         outcome (mainAdminHeal env ctx) = Returned None
         /\ filter isFatalOrHelp (trace (mainAdminHeal env ctx)) = []
     | Some _ =>
         outcome (mainAdminHeal env ctx) = Exited 1%Z
         /\ exists t last,
              trace (mainAdminHeal env ctx) = (t ++ [last])%list
              /\ isFatalOrHelp last = true
              /\ filter isFatalOrHelp t = []
     end.
Proof.
  unfold failureOf. run_cases env ctx; cbn [negb].
  - split; [discriminate |]. split; [reflexivity |].
    eexists (prelude ctx), _. repeat split.
  - destruct (snd (BackgroundHealStatus env)).
    + split; [discriminate |]. split; [reflexivity |].
      eexists (prelude ctx ++ [_])%list, _. unfold trace. cbn [fst].
      rewrite <- app_assoc. repeat split.
    + split; [discriminate |]. split; reflexivity.
  - destruct (snd (stopResult env ctx)).
    + split; [discriminate |]. split; [reflexivity |].
      eexists (prelude ctx ++ [_])%list, _. unfold trace. cbn [fst].
      rewrite <- app_assoc. repeat split.
    + split; [discriminate |]. split; reflexivity.
  - cbv zeta. destruct (snd (startResult env ctx)).
    + split; [discriminate |]. split; [reflexivity |].
      eexists (prelude ctx ++ [_])%list, _. unfold trace. cbn [fst].
      rewrite <- app_assoc. repeat split.
    + destruct (snd (followResult env ctx)).
      * split; [discriminate |]. split; [reflexivity |].
        eexists (prelude ctx ++ [_; _])%list, _. unfold trace. cbn [fst].
        rewrite <- app_assoc. repeat split.
      * split; [discriminate |]. split; reflexivity.
  - split; [discriminate |]. split; [reflexivity |].
    exists [], (EvShowCommandHelpAndExit "heal" 1%Z). repeat split.
Qed.

(** ** The stop message, rendered and read back *)

Module JsonFacts.
Import Json.
Local Open Scope string_scope.

Lemma append_assoc (a b c : string) : (a ++ b) ++ c = a ++ (b ++ c).
Proof. induction a as [| x a IH]; cbn; [reflexivity | now rewrite IH]. Qed.

(** An escaped byte reads back as the byte. *)
Lemma unquoteBody_escape (c : ascii) (r : string) :
  unquoteBody (escape c ++ r) = push c (unquoteBody r).
Proof.
  destruct c as [b0 b1 b2 b3 b4 b5 b6 b7].
  destruct b0, b1, b2, b3, b4, b5, b6, b7; reflexivity.
Qed.

Lemma unquoteBody_quoteBody (s rest : string) :
  unquoteBody (quoteBody s ++ String dquote rest) = Some (s, rest).
Proof.
  induction s as [| c s IH]; cbn [quoteBody].
  - reflexivity.
  - rewrite append_assoc, unquoteBody_escape, IH. reflexivity.
Qed.

Lemma quote_append (s rest : string) :
  quote s ++ rest = String dquote (quoteBody s ++ String dquote rest).
Proof. unfold quote. cbn. now rewrite append_assoc. Qed.

Lemma literal_quote (s rest : string) :
  literal (quote s ++ rest) = Some (s, rest).
Proof.
  rewrite quote_append. unfold literal. cbn [skipSpace].
  change (isSpace dquote) with false. cbv iota.
  change (Ascii.eqb dquote dquote) with true. cbv iota.
  apply unquoteBody_quoteBody.
Qed.

Lemma literal_space (c : ascii) (s : string) :
  isSpace c = true -> literal (String c s) = literal s.
Proof. intros H. unfold literal. cbn [skipSpace]. now rewrite H. Qed.

Lemma punct_space (c : ascii) (s : string) :
  isSpace c = true -> punct (String c s) = punct s.
Proof. intros H. unfold punct. cbn [skipSpace]. now rewrite H. Qed.

Lemma punct_byte (c : ascii) (s : string) :
  isSpace c = false -> punct (String c s) = Some (c, s).
Proof. intros H. unfold punct. cbn [skipSpace]. now rewrite H. Qed.

(** One member of the rendered object, as [members] reads it. *)
Lemma member_read (k v rest : string) :
  literal (String " " (quote k ++ String ":" (String " " (quote v ++ rest))))
  = Some (k, String ":" (String " " (quote v ++ rest)))
  /\ punct (String ":" (String " " (quote v ++ rest)))
     = Some (":"%char, String " " (quote v ++ rest))
  /\ literal (String " " (quote v ++ rest)) = Some (v, rest).
Proof.
  split; [| split].
  - rewrite literal_space by reflexivity. apply literal_quote.
  - apply punct_byte. reflexivity.
  - rewrite literal_space by reflexivity. apply literal_quote.
Qed.

(** The two members of the rendered object; two units of fuel do. *)
Lemma members_rendered (fuel : nat) (k1 v1 k2 v2 : string) :
  members (S (S fuel))
    (String newline
       (String " "
          (quote k1 ++
           String ":"
             (String " "
                (quote v1 ++
                 String ","
                   (String newline
                      (String " "
                         (quote k2 ++
                          String ":"
                            (String " " (quote v2 ++ String newline "}"))))))))))
  = Some ([(k1, v1); (k2, v2)], "").
Proof.
  cbn [members].
  rewrite literal_space by reflexivity.
  destruct (member_read k1 v1
              (String ","
                 (String newline
                    (String " "
                       (quote k2 ++
                        String ":"
                          (String " " (quote v2 ++ String newline "}")))))))
    as (-> & -> & ->).
  change (negb (Ascii.eqb ":" (ascii_of_nat 58))) with false. cbv iota.
  rewrite punct_byte by reflexivity.
  change (Ascii.eqb "," (ascii_of_nat 44)) with true. cbv iota.
  rewrite literal_space by reflexivity.
  destruct (member_read k2 v2 (String newline "}")) as (-> & -> & ->).
  change (negb (Ascii.eqb ":" (ascii_of_nat 58))) with false. cbv iota.
  rewrite punct_space by reflexivity.
  rewrite punct_byte by reflexivity.
  reflexivity.
Qed.

(** The reader inverts the encoder on every record. *)
Lemma Unmarshal_MarshalIndent (m : stopHealMessage) :
  Unmarshal (MarshalIndent m) = Some m.
Proof.
  destruct m as [st al]. unfold Unmarshal, object, MarshalIndent.
  cbn [Status Alias append].
  rewrite punct_byte by reflexivity.
  change (negb (Ascii.eqb "{" (ascii_of_nat 123))) with false. cbv iota.
  rewrite punct_space by reflexivity.
  rewrite punct_space by reflexivity.
  rewrite quote_append at 1. rewrite punct_byte by reflexivity.
  change (Ascii.eqb dquote (ascii_of_nat 125)) with false. cbv iota.
  cbn [String.length]. rewrite members_rendered.
  reflexivity.
Qed.

End JsonFacts.

Lemma in_prelude_print (ctx : Context) (e : Event) :
  In e (prelude ctx) -> isPrintMsg e = false.
Proof.
  unfold prelude. cbn [In]. intros H.
  repeat (destruct H as [H | H]; [subst e; reflexivity |]).
  destruct H.
Qed.

(** A stop message is printed by the force-stop branch alone, after a
    stop call that succeeded. *)
Lemma stop_message_of_run (env : Env) (ctx : Context) (m : stopHealMessage) :
  In (EvPrintMsg (MsgStopHeal m)) (trace (mainAdminHeal env ctx)) ->
  ctxBool ctx "force-stop" = true
  /\ snd (stopResult env ctx) = None
  /\ m = mkStopHeal "success" (locator env ctx).
Proof.
  intros Hin.
  assert (Hpre : forall t,
             In (EvPrintMsg (MsgStopHeal m)) (prelude ctx ++ t)%list ->
             In (EvPrintMsg (MsgStopHeal m)) t).
  { intros t H. apply in_app_or in H. destruct H as [H | H]; [| exact H].
    apply in_prelude_print in H. discriminate. }
  run_cases env ctx; unfold trace in Hin; cbn [fst] in Hin.
  - apply Hpre in Hin. destruct Hin as [Hin | []]. discriminate.
  - destruct (snd (BackgroundHealStatus env)); cbn [fst] in Hin;
      apply Hpre in Hin;
      destruct Hin as [Hin | [Hin | []]]; discriminate.
  - destruct (snd (stopResult env ctx)); cbn [fst] in Hin;
      apply Hpre in Hin;
      destruct Hin as [Hin | [Hin | []]]; try discriminate.
    injection Hin as <-. repeat split.
  - cbv zeta in Hin.
    destruct (snd (startResult env ctx));
      [| destruct (snd (followResult env ctx))];
      cbn [fst] in Hin; apply Hpre in Hin; cbn [In] in Hin;
      repeat (destruct Hin as [Hin | Hin]; [discriminate |]);
      destruct Hin.
  - destruct Hin as [Hin | []]. discriminate.
Qed.

(** C6, as stated, fails where the platform separator is not ['/']: the
    alias of the stop message is the locator after [filepath.ToSlash],
    and reading the rendered message back gives that alias, not the
    argument of the command line. *)
Lemma stop_alias_is_normalised_counterexample :
  let ctx := mkCtx ["myminio\bucket"] "normal" ["force-stop"] in
  let m := mkStopHeal "success" "myminio/bucket" in
  printed (trace (mainAdminHeal windowsEnv ctx)) = [EvPrintMsg (MsgStopHeal m)]
  /\ outcome (mainAdminHeal windowsEnv ctx) = Returned None
  /\ Json.Unmarshal (JSON m) = Some m
  /\ Alias m <> target ctx.
Proof.
  cbv zeta. split; [reflexivity |]. split; [reflexivity |].
  split; [vm_compute; reflexivity | discriminate].
Qed.

(** C6, amended: for every run that prints the stop message, rendering
    the message in its machine-readable form and reading it back gives
    the record with status ["success"] and, as alias, the target locator
    with the platform separator turned into ['/']; where the separator is
    ['/'] this is the target locator itself. *)
Theorem stop_message_round_trip (env : Env) (ctx : Context)
  (m : stopHealMessage) :
  In (EvPrintMsg (MsgStopHeal m)) (trace (mainAdminHeal env ctx)) ->
  Json.Unmarshal (JSON m)
  = Some (mkStopHeal "success" (ToSlash (pathSeparator env) (target ctx)))
  /\ (pathSeparator env = slash ->
      Json.Unmarshal (JSON m) = Some (mkStopHeal "success" (target ctx))).
Proof.
  intros Hin. destruct (stop_message_of_run env ctx m Hin) as (_ & _ & ->).
  unfold JSON. rewrite JsonFacts.Unmarshal_MarshalIndent.
  split; [reflexivity |].
  intros Hsep. unfold locator, ToSlash. rewrite Hsep. reflexivity.
Qed.

Lemma stop_message_round_trip_witness :
  let ctx := mkCtx ["myminio/bucket/a<b"] "normal" ["force-stop"] in
  let m := mkStopHeal "success" "myminio/bucket/a<b" in
  In (EvPrintMsg (MsgStopHeal m)) (trace (mainAdminHeal unixEnv ctx))
  /\ Json.Unmarshal (JSON m) = Some (mkStopHeal "success" (target ctx)).
Proof.
  intros ctx m.
  assert (Hin : In (EvPrintMsg (MsgStopHeal m))
                   (trace (mainAdminHeal unixEnv ctx))).
  { vm_compute. do 7 right. left. reflexivity. }
  split; [exact Hin |].
  exact (proj2 (stop_message_round_trip unixEnv ctx m Hin) eq_refl).
Defined.

(** ** The scope of a locator *)

Lemma cut_found (sep : ascii) (s h t : string) :
  cut sep s = (h, Some t) ->
  s = (h ++ String sep t)%string /\ contains sep h = false.
Proof.
  revert h t. induction s as [| c s IH]; intros h t H; cbn in H.
  - discriminate.
  - destruct (Ascii.eqb c sep) eqn:E.
    + injection H as <- <-. apply Ascii.eqb_eq in E. subst c.
      split; reflexivity.
    + destruct (cut sep s) as [h' t'].
      injection H as Hh Ht. subst h t'.
      destruct (IH h' t eq_refl) as [Hs Hno]. subst s.
      split; [reflexivity |]. cbn. rewrite E. exact Hno.
Qed.

Lemma cut_append (sep : ascii) (h t : string) :
  contains sep h = false ->
  cut sep (h ++ String sep t) = (h, Some t).
Proof.
  induction h as [| c h IH]; cbn; intros H.
  - rewrite Ascii.eqb_refl. reflexivity.
  - apply orb_false_elim in H. destruct H as [E H].
    rewrite E, (IH H). reflexivity.
Qed.

(** The one shape of locator that yields a prefix without a bucket. *)
Lemma scope_without_bucket (url : string) :
  nth 1 (splitStr url slash 3) "" = "" ->
  nth 2 (splitStr url slash 3) "" <> "" ->
  exists a,
    contains slash a = false
    /\ url = (a ++ String slash (String slash (nth 2 (splitStr url slash 3) "")))%string.
Proof.
  unfold splitStr. cbn [SplitN].
  destruct (cut slash url) as [h [t |]] eqn:Hc.
  - destruct (cut slash t) as [b [p |]] eqn:Hc'.
    + cbn. intros -> Hp. exists h.
      destruct (cut_found _ _ _ _ Hc) as [-> Hno].
      destruct (cut_found _ _ _ _ Hc') as [-> _].
      split; [exact Hno | reflexivity].
    + cbn. intros _ Hp. contradiction.
  - cbn. intros _ Hp. contradiction.
Qed.

(** C7, as stated, fails: a locator whose first ['/'] is followed at once
    by a second one has an empty bucket and a non-empty prefix. *)
Lemma empty_bucket_with_prefix_counterexample :
  scopeOf slash "myminio//dir" = ("", "dir")
  /\ fst (scopeOf slash "myminio//dir") = ""
  /\ snd (scopeOf slash "myminio//dir") <> "".
Proof. split; [reflexivity |]. split; [reflexivity | discriminate]. Qed.

(** C7, amended: for every target locator in which, once the platform
    separator is replaced by ['/'], the first ['/'] is not followed at
    once by a second ['/'], an empty bucket implies an empty prefix. *)
Theorem scope_invariant (separator : ascii) (arg : string) :
  (forall a p, contains slash a = false ->
               ToSlash separator arg
               <> (a ++ String slash (String slash p))%string) ->
  fst (scopeOf separator arg) = "" ->
  snd (scopeOf separator arg) = "".
Proof.
  unfold scopeOf. cbn [fst snd]. intros Hshape Hb.
  destruct (String.eqb (nth 2 (splitStr (ToSlash separator arg) slash 3) "") "")
    eqn:E.
  - apply String.eqb_eq in E. exact E.
  - apply String.eqb_neq in E.
    destruct (scope_without_bucket _ Hb E) as (a & Hno & Hurl).
    exfalso. exact (Hshape a _ Hno Hurl).
Qed.

Lemma contains_append (c : ascii) (a r : string) :
  contains c (a ++ String c r)%string = true.
Proof.
  induction a as [| d a IH]; cbn.
  - rewrite Ascii.eqb_refl. reflexivity.
  - rewrite IH. apply orb_true_r.
Qed.

(** The shape the invariant excludes does yield a prefix without a
    bucket, whatever the alias. *)
Lemma scope_of_double_slash (a p : string) :
  contains slash a = false ->
  scopeOf slash (a ++ String slash (String slash p))%string = ("", p).
Proof.
  intros H. unfold scopeOf, ToSlash, splitStr.
  rewrite Ascii.eqb_refl. cbn [SplitN].
  rewrite (cut_append slash a (String slash p) H).
  reflexivity.
Qed.

Lemma scope_invariant_witness :
  fst (scopeOf slash "myminio") = "" /\ snd (scopeOf slash "myminio") = "".
Proof.
  split; [reflexivity |].
  apply (scope_invariant slash "myminio"); [| reflexivity].
  intros a p _ H.
  assert (C : contains slash "myminio" = true).
  { change (ToSlash slash "myminio") with "myminio" in H.
    rewrite H. apply contains_append. }
  vm_compute in C. discriminate C.
Defined.

(** ** The closest commands *)

Module SuggestFacts.
Import Suggest.

Lemma insertString_perm (x : string) (l : list string) :
  Permutation (insertString x l) (x :: l).
Proof.
  induction l as [| y l IH]; cbn.
  - apply Permutation_refl.
  - destruct (String.leb x y).
    + apply Permutation_refl.
    + apply perm_trans with (y :: x :: l).
      * apply perm_skip. exact IH.
      * apply perm_swap.
Qed.

Lemma sortStrings_perm (l : list string) : Permutation (sortStrings l) l.
Proof.
  induction l as [| x l IH]; cbn.
  - apply perm_nil.
  - apply perm_trans with (x :: sortStrings l).
    + apply insertString_perm.
    + apply perm_skip. exact IH.
Qed.

Lemma insertString_hd (x y : string) (l : list string) :
  HdRel le y l -> le y x -> HdRel le y (insertString x l).
Proof.
  intros Hl Hyx. destruct l as [| z l]; cbn.
  - constructor. exact Hyx.
  - destruct (String.leb x z); constructor.
    + exact Hyx.
    + inversion Hl. assumption.
Qed.

Lemma insertString_sorted (x : string) (l : list string) :
  Sorted le l -> Sorted le (insertString x l).
Proof.
  induction 1 as [| y l Hs IH Hhd]; cbn.
  - repeat constructor.
  - destruct (String.leb x y) eqn:E.
    + constructor; [constructor; assumption | constructor; exact E].
    + constructor; [exact IH |].
      apply insertString_hd; [exact Hhd |].
      destruct (String.leb_total x y) as [H | H]; [congruence | exact H].
Qed.

Lemma sortStrings_sorted (l : list string) : Sorted le (sortStrings l).
Proof.
  induction l as [| x l IH]; cbn.
  - constructor.
  - apply insertString_sorted. exact IH.
Qed.

(** The binary search ends within its fuel: more fuel than the width
    of the interval changes nothing, and the answer lies in the
    interval. *)
Lemma midpoint (i j : nat) : i < j -> i <= (i + j) / 2 < j.
Proof.
  intros H. pose proof (Nat.div_mod_eq (i + j) 2).
  pose proof (Nat.mod_upper_bound (i + j) 2). lia.
Qed.

Lemma searchLoop_fuel (f : nat -> bool) (fuel fuel' i j : nat) :
  j - i <= fuel -> j - i <= fuel' ->
  searchLoop fuel f i j = searchLoop fuel' f i j.
Proof.
  revert fuel' i j.
  induction fuel as [| fuel IH]; intros fuel' i j H H'.
  - destruct fuel'; cbn [searchLoop]; [reflexivity |].
    destruct (i <? j)%nat eqn:E; [| reflexivity].
    apply Nat.ltb_lt in E. lia.
  - destruct fuel'; cbn [searchLoop].
    + destruct (i <? j)%nat eqn:E; [| reflexivity].
      apply Nat.ltb_lt in E. lia.
    + destruct (i <? j)%nat eqn:E; [| reflexivity].
      apply Nat.ltb_lt in E. pose proof (midpoint i j E).
      destruct (negb (f ((i + j) / 2))); apply IH; lia.
Qed.

Lemma searchLoop_bounds (f : nat -> bool) (fuel i j : nat) :
  i <= j -> i <= searchLoop fuel f i j <= j.
Proof.
  revert i j. induction fuel as [| fuel IH]; intros i j H; cbn [searchLoop].
  - lia.
  - destruct (i <? j)%nat eqn:E; [| lia].
    apply Nat.ltb_lt in E. pose proof (midpoint i j E).
    destruct (negb (f ((i + j) / 2))).
    + pose proof (IH ((i + j) / 2 + 1) j). lia.
    + pose proof (IH i ((i + j) / 2)). lia.
Qed.

Lemma SearchStrings_bound (a : list string) (x : string) :
  SearchStrings a x <= List.length a.
Proof.
  unfold SearchStrings, Search.
  pose proof (searchLoop_bounds
                (fun i => String.leb x (nth i a "")) (List.length a)
                0 (List.length a)).
  lia.
Qed.

(** The second loop appends to the list it is given, and what it
    appends comes from the walk and is within distance one. *)
Lemma second_loop (dist : string -> string -> Z) (command : string)
  (values closest : list string) :
  exists extra,
    fold_left (consider dist command) values closest
    = (closest ++ extra)%list
    /\ forall x, In x extra ->
                 In x values /\ (dist command x <= 1)%Z.
Proof.
  revert closest. induction values as [| v values IH]; intros closest.
  - exists []. cbn. rewrite app_nil_r. split; [reflexivity | intros x []].
  - cbn [fold_left]. unfold consider at 2.
    destruct (SearchStrings closest v <? List.length closest)%nat.
    + destruct (IH closest) as (extra & -> & Hex).
      exists extra. split; [reflexivity |].
      intros x Hx. destruct (Hex x Hx). split; [right |]; assumption.
    + destruct (dist command v <? 2)%Z eqn:E.
      * destruct (IH (closest ++ [v])%list) as (extra & -> & Hex).
        exists (v :: extra). rewrite <- app_assoc. split; [reflexivity |].
        intros x [<- | Hx].
        -- split; [left; reflexivity |]. apply Z.ltb_lt in E. lia.
        -- destruct (Hex x Hx). split; [right |]; assumption.
      * destruct (IH closest) as (extra & -> & Hex).
        exists extra. split; [reflexivity |].
        intros x Hx. destruct (Hex x Hx). split; [right |]; assumption.
Qed.

End SuggestFacts.

(** C10: with a trie that keeps its contract, every string returned by
    [findClosestCommands] is a name stored in the commands tree that
    starts with the query or is at distance at most one from it; and the
    result begins with the prefix matches, all of them, in ascending
    order, followed by the names added for their distance. *)
Theorem findClosestCommands_sound (commandsTree : Suggest.CommandsTree)
  (dist : string -> string -> Z) (command : string) :
  Suggest.trieContract commandsTree ->
  let result := Suggest.findClosestCommands commandsTree dist command in
  let matches := Suggest.PrefixMatch commandsTree command in
  (forall x, In x result ->
             In x (Suggest.Walk commandsTree)
             /\ (HasPrefix x command = true \/ (dist command x <= 1)%Z))
  /\ exists front extra,
       result = (front ++ extra)%list
       /\ Permutation front matches
       /\ Sorted Suggest.le front
       /\ forall x, In x extra ->
                    In x (Suggest.Walk commandsTree)
                    /\ (dist command x <= 1)%Z.
Proof.
  intros Hc result matches. subst result matches.
  unfold Suggest.findClosestCommands.
  destruct (SuggestFacts.second_loop dist command
              (Suggest.Walk commandsTree)
              (Suggest.sortStrings (Suggest.PrefixMatch commandsTree command)))
    as (extra & -> & Hex).
  split.
  - intros x Hx. apply in_app_or in Hx. destruct Hx as [Hx | Hx].
    + apply (Permutation_in _ (SuggestFacts.sortStrings_perm _)) in Hx.
      destruct (Hc command x Hx) as [Hw Hp]. split; [exact Hw | left; exact Hp].
    + destruct (Hex x Hx) as [Hw Hd]. split; [exact Hw | right; exact Hd].
  - exists (Suggest.sortStrings (Suggest.PrefixMatch commandsTree command)),
           extra.
    split; [reflexivity |].
    split; [apply SuggestFacts.sortStrings_perm |].
    split; [apply SuggestFacts.sortStrings_sorted | exact Hex].
Qed.

Lemma sampleTree_contract : Suggest.trieContract Suggest.sampleTree.
Proof.
  intros key x. unfold Suggest.sampleTree. cbn [Suggest.PrefixMatch Suggest.Walk].
  intros H. apply filter_In in H. exact H.
Qed.

Lemma findClosestCommands_sound_witness :
  Suggest.findClosestCommands Suggest.sampleTree Suggest.distance "s"
  = ["share"; "stat"]
  /\ forall x,
       In x (Suggest.findClosestCommands Suggest.sampleTree
               Suggest.distance "s") ->
       In x (Suggest.Walk Suggest.sampleTree)
       /\ (HasPrefix x "s" = true \/ (Suggest.distance "s" x <= 1)%Z).
Proof.
  split; [vm_compute; reflexivity |].
  exact (proj1 (findClosestCommands_sound Suggest.sampleTree
                  Suggest.distance "s" sampleTree_contract)).
Defined.

(** * More properties of [main.go] *)

(** ** The order of the suggestions *)

Module OrderFacts.
Import Suggest MainGo.

Lemma le_cases (a b : string) :
  le a b <-> a = b \/ String_as_OT.lt a b.
Proof.
  unfold le, String.leb.
  pose proof (String_as_OT.cmp_eq a b) as He.
  pose proof (String_as_OT.cmp_lt a b) as Hl.
  pose proof (String_as_OT.cmp_antisym a b) as Ha.
  pose proof (String_as_OT.cmp_lt b a) as Hl'.
  unfold String_as_OT.cmp in *.
  destruct (String.compare a b) eqn:E.
  - split; [intros _; left; apply He; reflexivity | reflexivity].
  - split; [intros _; right; apply Hl; reflexivity | reflexivity].
  - split; [discriminate |].
    intros [H | H].
    + apply He in H. discriminate.
    + apply Hl in H. discriminate.
Qed.

Lemma le_refl (a : string) : le a a.
Proof. apply le_cases. left. reflexivity. Qed.

Lemma le_trans (a b c : string) : le a b -> le b c -> le a c.
Proof.
  intros H1 H2. apply le_cases in H1. apply le_cases in H2. apply le_cases.
  destruct H1 as [-> | H1]; [exact H2 |].
  destruct H2 as [<- | H2]; [right; exact H1 |].
  right. exact (String_as_OT.lt_trans _ _ _ H1 H2).
Qed.

Lemma not_le (a b : string) : String.leb a b = false -> le b a /\ a <> b.
Proof.
  intros H. split.
  - destruct (String.leb_total a b) as [H' | H']; [congruence | exact H'].
  - intros ->. pose proof (le_refl b) as R. unfold le in R. congruence.
Qed.

Lemma ltb_of_not_le (a b : string) :
  String.leb a b = false -> String.ltb b a = true.
Proof.
  unfold String.leb, String.ltb. rewrite (String.compare_antisym b a).
  destruct (String.compare a b); cbn; congruence.
Qed.

Lemma lastOf_snoc (l : list string) (v : string) :
  lastOf (l ++ [v]) = Some v.
Proof.
  induction l as [| x l IH]; [reflexivity |].
  cbn [app lastOf]. destruct (l ++ [v]) eqn:E.
  - destruct l; discriminate.
  - exact IH.
Qed.

Lemma lastOf_in (l : list string) (m : string) :
  lastOf l = Some m -> In m l.
Proof.
  induction l as [| x l IH]; [discriminate |].
  cbn [lastOf]. destruct l as [| y l].
  - intros H. injection H as ->. left. reflexivity.
  - intros H. right. apply IH. exact H.
Qed.

Lemma lastOf_none (l : list string) : lastOf l = None -> l = [].
Proof.
  induction l as [| x l IH]; [reflexivity |].
  cbn [lastOf]. destruct l as [| y l]; [discriminate |].
  intros H. apply IH in H. discriminate.
Qed.

(** In an ascending list every name is at most the last one. *)
Lemma sorted_below_last (l : list string) (m : string) :
  Sorted le l -> lastOf l = Some m -> forall x, In x l -> le x m.
Proof.
  intros Hs. induction Hs as [| y l Hs IH Hhd]; [discriminate |].
  destruct l as [| z l].
  - cbn. intros H x [<- | []]. injection H as ->. apply le_refl.
  - cbn [lastOf]. intros H x [<- | Hx].
    + inversion Hhd; subst. apply le_trans with z; [assumption |].
      apply IH; [exact H | left; reflexivity].
    + apply IH; assumption.
Qed.

Lemma sorted_snoc (l : list string) (v : string) :
  Sorted le l ->
  match lastOf l with Some m => le m v | None => True end ->
  Sorted le (l ++ [v]).
Proof.
  intros Hs. induction Hs as [| y l Hs IH Hhd]; intros Hv.
  - repeat constructor.
  - cbn [app]. destruct l as [| z l].
    + cbn in *. repeat constructor. exact Hv.
    + constructor.
      * apply IH. exact Hv.
      * cbn [app]. inversion Hhd; subst. constructor. assumption.
Qed.

(** The search answers the length of the list exactly when every name
    is below the one looked for. *)
Lemma searchLoop_all_false (f : nat -> bool) (fuel i j : nat) :
  (forall k, i <= k < j -> f k = false) ->
  i <= j -> j - i <= fuel ->
  searchLoop fuel f i j = j.
Proof.
  revert i j. induction fuel as [| fuel IH]; intros i j Hf Hij Hfuel;
    cbn [searchLoop].
  - lia.
  - destruct (i <? j)%nat eqn:E; [| apply Nat.ltb_ge in E; lia].
    apply Nat.ltb_lt in E. pose proof (SuggestFacts.midpoint i j E) as Hm.
    rewrite (Hf ((i + j) / 2)) by lia. cbn [negb].
    apply IH; [intros k Hk; apply Hf; lia | lia | lia].
Qed.

Lemma searchLoop_top (f : nat -> bool) (fuel i j : nat) :
  i < j -> j - i <= fuel ->
  searchLoop fuel f i j = j ->
  f (j - 1) = false.
Proof.
  revert i j. induction fuel as [| fuel IH]; intros i j Hij Hfuel;
    cbn [searchLoop].
  - lia.
  - destruct (i <? j)%nat eqn:E; [| apply Nat.ltb_ge in E; lia].
    pose proof (SuggestFacts.midpoint i j Hij) as Hm.
    destruct (f ((i + j) / 2)) eqn:Fh; cbn [negb].
    + intros H.
      pose proof (SuggestFacts.searchLoop_bounds f fuel i ((i + j) / 2)).
      lia.
    + intros H.
      destruct (Nat.eq_dec ((i + j) / 2 + 1) j) as [Heq | Hne].
      * replace (j - 1) with ((i + j) / 2) by lia. exact Fh.
      * apply (IH ((i + j) / 2 + 1) j); [lia | lia | exact H].
Qed.

Lemma lastOf_nth (l : list string) (m : string) :
  lastOf l = Some m -> nth (List.length l - 1) l "" = m.
Proof.
  induction l as [| x l IH]; [discriminate |].
  cbn [lastOf]. destruct l as [| y l].
  - intros H. injection H as ->. reflexivity.
  - intros H. specialize (IH H). cbn [List.length] in *.
    replace (S (S (List.length l)) - 1) with (S (List.length l)) by lia.
    cbn [nth]. replace (S (List.length l) - 1) with (List.length l) in IH
      by lia.
    exact IH.
Qed.

(** The test of the second loop, on an ascending list. *)
Lemma skip_test (a : list string) (v : string) :
  Sorted le a ->
  (SearchStrings a v <? List.length a)%nat
  = match lastOf a with
    | Some m => String.leb v m
    | None => false
    end.
Proof.
  intros Hs. destruct (lastOf a) as [m |] eqn:Hl.
  - assert (Hn : 0 < List.length a).
    { destruct a; [discriminate | cbn; lia]. }
    pose proof (SuggestFacts.SearchStrings_bound a v) as Hb.
    destruct (String.leb v m) eqn:E.
    + apply Nat.ltb_lt.
      destruct (Nat.eq_dec (SearchStrings a v) (List.length a)) as [Heq | Hne];
        [| lia].
      unfold SearchStrings, Search in Heq.
      apply searchLoop_top in Heq; [| lia | lia].
      rewrite (lastOf_nth a m Hl) in Heq. congruence.
    + apply Nat.ltb_ge. unfold SearchStrings, Search.
      rewrite searchLoop_all_false; [lia | | lia | lia].
      intros k Hk.
      destruct (String.leb v (nth k a "")) eqn:Ek; [| reflexivity].
      assert (Hin : In (nth k a "") a) by (apply nth_In; lia).
      pose proof (sorted_below_last a m Hs Hl _ Hin) as Hle.
      pose proof (le_trans _ _ _ Ek Hle) as Hvm. unfold le in Hvm.
      congruence.
  - apply lastOf_none in Hl. subst a. reflexivity.
Qed.

Lemma consider_sorted (dist : string -> string -> Z) (command : string)
  (closest : list string) (v : string) :
  Sorted le closest ->
  consider dist command closest v
  = if match lastOf closest with
       | Some m => String.leb v m
       | None => false
       end
    then closest
    else if within dist command v then (closest ++ [v])%list else closest.
Proof.
  intros Hs. unfold consider, within. rewrite (skip_test closest v Hs).
  reflexivity.
Qed.

(** The second loop is [climb] over the walked names within reach. *)
Lemma second_loop_climbs (dist : string -> string -> Z) (command : string)
  (values closest : list string) :
  Sorted le closest ->
  fold_left (consider dist command) values closest
  = (closest ++ climb (lastOf closest)
                      (filter (within dist command) values))%list.
Proof.
  revert closest. induction values as [| v values IH]; intros closest Hs.
  - cbn. rewrite app_nil_r. reflexivity.
  - cbn [fold_left filter]. rewrite (consider_sorted _ _ _ _ Hs).
    destruct (lastOf closest) as [m |] eqn:Hl.
    + destruct (String.leb v m) eqn:E.
      * rewrite (IH closest Hs), Hl.
        destruct (within dist command v); [| reflexivity].
        cbn [climb]. rewrite E. reflexivity.
      * destruct (within dist command v).
        -- rewrite IH.
           ++ rewrite lastOf_snoc, <- app_assoc. cbn [climb app].
              rewrite E. reflexivity.
           ++ apply sorted_snoc; [exact Hs |]. rewrite Hl.
              apply (not_le v m E).
        -- rewrite (IH closest Hs), Hl. reflexivity.
    + destruct (within dist command v).
      * rewrite IH.
        -- rewrite lastOf_snoc, <- app_assoc. reflexivity.
        -- apply sorted_snoc; [exact Hs |]. rewrite Hl. exact I.
      * rewrite (IH closest Hs), Hl. reflexivity.
Qed.

(** What [climb] keeps is above the top and ascends strictly. *)
Lemma climb_above (m : string) (l : list string) (x : string) :
  In x (climb (Some m) l) -> String.leb x m = false.
Proof.
  revert m. induction l as [| v l IH]; intros m; cbn [climb]; [intros [] |].
  destruct (String.leb v m) eqn:E.
  - apply IH.
  - intros [<- | Hx]; [exact E |].
    specialize (IH v Hx).
    destruct (String.leb x m) eqn:Ex; [| reflexivity].
    destruct (not_le v m E) as [Hmv _].
    pose proof (le_trans _ _ _ Ex Hmv) as H. unfold le in H. congruence.
Qed.

Lemma climb_sorted (top : option string) (l : list string) :
  Sorted le (climb top l)
  /\ match top with
     | Some m => HdRel le m (climb top l)
     | None => True
     end.
Proof.
  revert top. induction l as [| v l IH]; intros top; cbn [climb].
  - split; [constructor | destruct top; constructor].
  - destruct top as [m |].
    + destruct (String.leb v m) eqn:E.
      * apply IH.
      * destruct (IH (Some v)) as [Hs Hh]. split.
        -- constructor; assumption.
        -- constructor. apply (not_le v m E).
    + destruct (IH (Some v)) as [Hs Hh]. split; [| exact I].
      constructor; assumption.
Qed.

Lemma climb_nodup (top : option string) (l : list string) :
  NoDup (climb top l).
Proof.
  revert top. induction l as [| v l IH]; intros top; cbn [climb].
  - constructor.
  - assert (Hv : NoDup (v :: climb (Some v) l)).
    { constructor; [| apply IH].
      intros Hin. apply climb_above in Hin.
      pose proof (le_refl v) as R. unfold le in R. congruence. }
    destruct top as [m |]; [| exact Hv].
    destruct (String.leb v m); [apply IH | exact Hv].
Qed.

Lemma climb_in (top : option string) (l : list string) (x : string) :
  In x (climb top l) -> In x l.
Proof.
  revert top. induction l as [| v l IH]; intros top; cbn [climb];
    [intros [] |].
  destruct top as [m |].
  - destruct (String.leb v m).
    + intros H. right. exact (IH _ H).
    + intros [<- | H]; [left; reflexivity | right; exact (IH _ H)].
  - intros [<- | H]; [left; reflexivity | right; exact (IH _ H)].
Qed.

Lemma sorted_app_climb (a l : list string) :
  Sorted le a -> Sorted le (a ++ climb (lastOf a) l).
Proof.
  intros Hs. induction Hs as [| y a Hs IH Hhd].
  - cbn. apply climb_sorted.
  - destruct a as [| z a].
    + cbn [lastOf app]. destruct (climb_sorted (Some y) l) as [H1 H2].
      constructor; assumption.
    + change (lastOf (y :: z :: a)) with (lastOf (z :: a)).
      cbn [app] in *. constructor; [exact IH |].
      inversion Hhd; subst. constructor. assumption.
Qed.

End OrderFacts.

(** X1: [findClosestCommands] in closed form.  The result is the sorted
    prefix matches followed by the walked names at distance below two,
    taken in walk order, of which a name is kept only when it sorts
    strictly after the last name of the result so far. *)
Theorem findClosestCommands_closed_form
  (commandsTree : Suggest.CommandsTree) (dist : string -> string -> Z)
  (command : string) :
  let front := Suggest.sortStrings (Suggest.PrefixMatch commandsTree command) in
  Suggest.findClosestCommands commandsTree dist command
  = (front ++ MainGo.climb (MainGo.lastOf front)
                (filter (MainGo.within dist command)
                        (Suggest.Walk commandsTree)))%list.
Proof.
  cbv zeta. unfold Suggest.findClosestCommands.
  apply OrderFacts.second_loop_climbs. apply SuggestFacts.sortStrings_sorted.
Qed.

(** X2: whatever the tree, the order of its walk and the distance, the
    list returned by [findClosestCommands] is in ascending order from
    its first name to its last. *)
Theorem findClosestCommands_ascending
  (commandsTree : Suggest.CommandsTree) (dist : string -> string -> Z)
  (command : string) :
  Sorted Suggest.le (Suggest.findClosestCommands commandsTree dist command).
Proof.
  unfold Suggest.findClosestCommands.
  rewrite OrderFacts.second_loop_climbs
    by apply SuggestFacts.sortStrings_sorted.
  apply OrderFacts.sorted_app_climb. apply SuggestFacts.sortStrings_sorted.
Qed.

(** X3: a returned name that is not a prefix match was walked, is at
    distance at most one, and sorts strictly after every prefix match;
    so a walked name close to the query that sorts before a prefix match
    is not suggested. *)
Theorem findClosestCommands_added_after_matches
  (commandsTree : Suggest.CommandsTree) (dist : string -> string -> Z)
  (command x : string) :
  In x (Suggest.findClosestCommands commandsTree dist command) ->
  ~ In x (Suggest.PrefixMatch commandsTree command) ->
  In x (Suggest.Walk commandsTree)
  /\ (dist command x <= 1)%Z
  /\ forall y, In y (Suggest.PrefixMatch commandsTree command) ->
               String.ltb y x = true.
Proof.
  intros Hin Hnot. unfold Suggest.findClosestCommands in Hin.
  rewrite OrderFacts.second_loop_climbs in Hin
    by apply SuggestFacts.sortStrings_sorted.
  set (front := Suggest.sortStrings
                  (Suggest.PrefixMatch commandsTree command)) in *.
  assert (Hperm : Permutation front
                    (Suggest.PrefixMatch commandsTree command))
    by apply SuggestFacts.sortStrings_perm.
  apply in_app_or in Hin. destruct Hin as [Hin | Hin].
  { exfalso. apply Hnot. exact (Permutation_in _ Hperm Hin). }
  pose proof (OrderFacts.climb_in _ _ _ Hin) as Hf.
  apply filter_In in Hf. destruct Hf as [Hw Hd].
  unfold MainGo.within in Hd. apply Z.ltb_lt in Hd.
  split; [exact Hw |]. split; [lia |].
  intros y Hy. apply (Permutation_in _ (Permutation_sym Hperm)) in Hy.
  destruct (MainGo.lastOf front) as [m |] eqn:Hl.
  - pose proof (OrderFacts.climb_above _ _ _ Hin) as Hxm.
    pose proof (OrderFacts.sorted_below_last front m
                  (SuggestFacts.sortStrings_sorted _) Hl y Hy) as Hym.
    apply OrderFacts.ltb_of_not_le.
    destruct (String.leb x y) eqn:E; [| reflexivity].
    pose proof (OrderFacts.le_trans _ _ _ E Hym) as H.
    unfold Suggest.le in H. congruence.
  - apply OrderFacts.lastOf_none in Hl. rewrite Hl in Hy. destruct Hy.
Qed.

Lemma findClosestCommands_added_after_matches_witness :
  Suggest.findClosestCommands Suggest.sampleTree Suggest.distance "mb"
  = ["mb"; "rb"]
  /\ (Suggest.distance "mb" "rb" <= 1)%Z
  /\ String.ltb "mb" "rb" = true.
Proof.
  split; [vm_compute; reflexivity |].
  assert (Hin : In "rb" (Suggest.findClosestCommands Suggest.sampleTree
                           Suggest.distance "mb")).
  { vm_compute. right. left. reflexivity. }
  assert (Hnot : ~ In "rb" (Suggest.PrefixMatch Suggest.sampleTree "mb")).
  { vm_compute. intros [H | []]. discriminate H. }
  destruct (findClosestCommands_added_after_matches Suggest.sampleTree
              Suggest.distance "mb" "rb" Hin Hnot) as (_ & Hd & Hy).
  split; [exact Hd |]. apply Hy. vm_compute. left. reflexivity.
Defined.

(** X4: when the prefix matches are pairwise distinct, no name occurs
    twice in the result of [findClosestCommands]: a walked name that is
    already a prefix match, or was already added, is not added again. *)
Theorem findClosestCommands_nodup
  (commandsTree : Suggest.CommandsTree) (dist : string -> string -> Z)
  (command : string) :
  NoDup (Suggest.PrefixMatch commandsTree command) ->
  NoDup (Suggest.findClosestCommands commandsTree dist command).
Proof.
  intros Hnd. unfold Suggest.findClosestCommands.
  rewrite OrderFacts.second_loop_climbs
    by apply SuggestFacts.sortStrings_sorted.
  set (front := Suggest.sortStrings
                  (Suggest.PrefixMatch commandsTree command)) in *.
  assert (Hperm : Permutation front
                    (Suggest.PrefixMatch commandsTree command))
    by apply SuggestFacts.sortStrings_perm.
  assert (Hfront : NoDup front).
  { apply (Permutation_NoDup (Permutation_sym Hperm)). exact Hnd. }
  apply NoDup_app.
  - exact Hfront.
  - apply OrderFacts.climb_nodup.
  - intros x Hx Hc.
    destruct (MainGo.lastOf front) as [m |] eqn:Hl.
    + pose proof (OrderFacts.climb_above _ _ _ Hc) as Hxm.
      pose proof (OrderFacts.sorted_below_last front m
                    (SuggestFacts.sortStrings_sorted _) Hl x Hx) as H.
      unfold Suggest.le in H. congruence.
    + apply OrderFacts.lastOf_none in Hl. rewrite Hl in Hx. destruct Hx.
Qed.

Lemma findClosestCommands_nodup_witness :
  NoDup (Suggest.findClosestCommands Suggest.sampleTree
           Suggest.distance "s").
Proof.
  apply findClosestCommands_nodup. vm_compute.
  repeat constructor; cbn; intuition discriminate.
Defined.

(** ** The message of [commandNotFound] and the report of [checkConfig] *)

Module StringFacts.
Local Open Scope string_scope.

Lemma length_append (a b : string) :
  String.length (a ++ b) = String.length a + String.length b.
Proof. induction a as [| c a IH]; cbn; [reflexivity | now rewrite IH]. Qed.

Lemma prefix_append (a b : string) : String.prefix a (a ++ b) = true.
Proof.
  induction a as [| c a IH]; cbn.
  - destruct b; reflexivity.
  - destruct (ascii_dec c c) as [_ | N]; [exact IH | contradiction].
Qed.

Lemma append_nil_r (a : string) : a ++ "" = a.
Proof. induction a as [| c a IH]; cbn; [reflexivity | now rewrite IH]. Qed.

Lemma fold_left_append (g : string -> string) (l : list string)
  (acc : string) :
  exists suffix,
    fold_left (fun msg cmd => msg ++ g cmd) l acc = acc ++ suffix.
Proof.
  revert acc. induction l as [| x l IH]; intros acc; cbn [fold_left].
  - exists "". symmetry. apply append_nil_r.
  - destruct (IH (acc ++ g x)) as [suffix ->].
    exists (g x ++ suffix). apply JsonFacts.append_assoc.
Qed.

End StringFacts.

(** X5: [commandNotFound] reports one fatal message and the process
    exits.  The message begins with the sentence that names the unknown
    command, and it is that sentence alone exactly when
    [findClosestCommands] finds no name to suggest. *)
Theorem commandNotFound_report (e : error) (tr : list string)
  (commandsTree : Suggest.CommandsTree) (dist : string -> string -> Z)
  (command : string) :
  let closest := Suggest.findClosestCommands commandsTree dist command in
  let msg := MainGo.commandNotFoundMessage closest command in
  MainGo.commandNotFound (Some (e, tr)) commandsTree dist command
  = ([EvFatal e tr msg], Exited 1%Z)
  /\ HasPrefix msg (MainGo.notACommand command) = true
  /\ (msg = MainGo.notACommand command <-> closest = []).
Proof.
  cbv zeta.
  set (closest := Suggest.findClosestCommands commandsTree dist command).
  split.
  { unfold MainGo.commandNotFound. fold closest. cbn.
    rewrite app_nil_r. reflexivity. }
  assert (Hshape : closest = []
                   \/ exists suffix,
                        MainGo.commandNotFoundMessage closest command
                        = (MainGo.notACommand command
                           ++ (MainGo.didYouMean ++ suffix))%string).
  { unfold MainGo.commandNotFoundMessage.
    destruct closest as [| x l]; [left; reflexivity | right].
    cbn [List.length Nat.ltb Nat.leb].
    destruct (S (List.length l) =? 1)%nat.
    - eexists. apply JsonFacts.append_assoc.
    - destruct (StringFacts.fold_left_append
                  (fun cmd => ("        `" ++ cmd ++ "`"
                               ++ String MainGo.lineFeed "")%string)
                  (x :: l)
                  (MainGo.notACommand command ++ MainGo.didYouMean)%string)
        as [suffix Hs].
      exists suffix. rewrite Hs. apply JsonFacts.append_assoc. }
  destruct Hshape as [Hnil | [suffix Hmsg]].
  - rewrite Hnil.
    change (MainGo.commandNotFoundMessage [] command)
      with (MainGo.notACommand command).
    split.
    + unfold HasPrefix.
      rewrite <- (StringFacts.append_nil_r (MainGo.notACommand command)) at 2.
      apply StringFacts.prefix_append.
    + split; reflexivity.
  - rewrite Hmsg. split; [apply StringFacts.prefix_append |].
    split.
    + intros H. apply (f_equal String.length) in H.
      rewrite !StringFacts.length_append in H. cbn in H. lia.
    + intros Hnil.
      assert (Hbase : MainGo.commandNotFoundMessage closest command
                      = MainGo.notACommand command)
        by (rewrite Hnil; reflexivity).
      rewrite Hmsg in Hbase. exact Hbase.
Qed.

(** X6: the report that [checkConfig] builds holds the first eleven
    validation errors, each on a line of its own, in their order; the
    twelfth and later ones are left out.  The loop stops at the first
    index above ten, so one error more than ten is reported. *)
Theorem configErrorReport_first_eleven (errMsgs : list string) :
  MainGo.configErrorReport errMsgs
  = fold_right
      (fun errMsg rest =>
         (errMsg ++ String MainGo.lineFeed "" ++ rest)%string)
      "" (firstn 11 errMsgs).
Proof.
  unfold MainGo.configErrorReport.
  assert (H : forall index l acc,
             index <= 11 ->
             MainGo.configErrorLoop index l acc
             = (acc ++ fold_right
                         (fun errMsg rest =>
                            (errMsg ++ String MainGo.lineFeed "" ++ rest)%string)
                         "" (firstn (11 - index) l))%string).
  { intros index l. revert index.
    induction l as [| m l IH]; intros index acc Hi;
      cbn [MainGo.configErrorLoop].
    - rewrite firstn_nil. cbn. symmetry. apply StringFacts.append_nil_r.
    - destruct (10 <? index)%nat eqn:E.
      + apply Nat.ltb_lt in E. replace (11 - index) with 0 by lia.
        cbn. symmetry. apply StringFacts.append_nil_r.
      + apply Nat.ltb_ge in E.
        replace (11 - index) with (S (11 - S index)) by lia.
        rewrite firstn_cons. cbn [fold_right].
        rewrite IH by lia.
        rewrite !JsonFacts.append_assoc. reflexivity. }
  rewrite (H 0 errMsgs "") by lia. reflexivity.
Qed.

(** ** [installAutoCompletion] *)

Module CompletionFacts.
Import MainGo.

Lemma skipped_run (env : CompletionEnv) (reads : list (option N)) :
  completionSkipped env = true ->
  installAutoCompletion env reads = ([], Finished).
Proof.
  unfold completionSkipped, installAutoCompletion. intros H.
  destruct (noAutocompletion env || globalNoAutocompletion env);
    [reflexivity |].
  destruct (globalQuiet env || globalJSON env || negb (IsTerminal env));
    [reflexivity |].
  destruct (String.eqb (GOOS env) "windows"); [reflexivity |].
  destruct (IsInstalled env); [reflexivity | discriminate].
Qed.

Lemma asked_run (env : CompletionEnv) (reads : list (option N)) :
  completionSkipped env = false ->
  installAutoCompletion env reads = promptLoop env reads.
Proof.
  unfold completionSkipped, installAutoCompletion. intros H.
  destruct (noAutocompletion env || globalNoAutocompletion env);
    [discriminate |].
  destruct (globalQuiet env || globalJSON env || negb (IsTerminal env));
    [discriminate |].
  destruct (String.eqb (GOOS env) "windows"); [discriminate |].
  destruct (IsInstalled env); [discriminate | reflexivity].
Qed.

Lemma promptLoop_install (env : CompletionEnv) (reads : list (option N)) :
  In (EvCompletionInstall "mc") (fst (promptLoop env reads))
  <-> exists char, firstAnswer reads = Some char /\ isYes char = true.
Proof.
  induction reads as [| [char |] rest IH]; cbn [promptLoop firstAnswer].
  - split.
    + intros [H | []]. discriminate.
    + intros (c & H & _). discriminate.
  - destruct (isYes char) eqn:Ey.
    + cbn [orb fst]. split.
      * intros _. exists char. split; [reflexivity | exact Ey].
      * intros _. right. left. reflexivity.
    + cbn [orb]. destruct (isNo char) eqn:En.
      * cbn [fst]. split.
        -- intros [H | []]. discriminate.
        -- intros (c & H & Hy). injection H as <-. congruence.
      * destruct (promptLoop env rest) as [t e]. cbn [fst] in *.
        rewrite <- IH. split.
        -- intros [H | H]; [discriminate | exact H].
        -- intros H. right. exact H.
  - destruct (promptLoop env rest) as [t e]. cbn [fst] in *.
    rewrite <- IH. split.
    + intros [H | H]; [discriminate | exact H].
    + intros H. right. exact H.
Qed.

Lemma promptLoop_ending (env : CompletionEnv) (reads : list (option N)) :
  match firstAnswer reads with
  | Some _ =>
      snd (promptLoop env reads) = Finished
      /\ List.length (filter isPrompt (fst (promptLoop env reads)))
         <= List.length reads
  | None =>
      snd (promptLoop env reads) = Waiting
      /\ List.length (filter isPrompt (fst (promptLoop env reads)))
         = S (List.length reads)
  end.
Proof.
  induction reads as [| [char |] rest IH]; cbn [promptLoop firstAnswer].
  - split; reflexivity.
  - destruct (isYes char) eqn:Ey.
    + cbn [orb]. split; [reflexivity |].
      cbn. destruct (Install env); cbn; lia.
    + cbn [orb]. destruct (isNo char) eqn:En.
      * split; [reflexivity | cbn; lia].
      * destruct (promptLoop env rest) as [t e]. cbn [fst snd] in *.
        destruct (firstAnswer rest); destruct IH as [He Hp];
          (split; [exact He | cbn; lia]).
  - destruct (promptLoop env rest) as [t e]. cbn [fst snd] in *.
    destruct (firstAnswer rest); destruct IH as [He Hp];
      (split; [exact He | cbn; lia]).
Qed.

End CompletionFacts.

(** X7: [installAutoCompletion] installs the completion exactly when
    none of its guards holds (the no-autocompletion flag of the command
    or the global one, quiet or JSON output, an output that is not a
    terminal, Windows, a completion installed already) and the first
    read that is one of [y], [Y], [n], [N] is [y] or [Y]; read errors
    and other runes before it do not count. *)
Theorem completion_installed_iff (env : MainGo.CompletionEnv)
  (reads : list (option N)) :
  In (MainGo.EvCompletionInstall "mc")
     (fst (MainGo.installAutoCompletion env reads))
  <-> MainGo.completionSkipped env = false
      /\ exists char, MainGo.firstAnswer reads = Some char
                      /\ MainGo.isYes char = true.
Proof.
  destruct (MainGo.completionSkipped env) eqn:Hs.
  - rewrite (CompletionFacts.skipped_run env reads Hs). cbn [fst In].
    split; [intros [] | intros [H _]; discriminate].
  - rewrite (CompletionFacts.asked_run env reads Hs).
    rewrite CompletionFacts.promptLoop_install.
    split; [intros H; split; [reflexivity | exact H] | intros [_ H]; exact H].
Qed.

(** X8: under one of its guards [installAutoCompletion] returns at once
    and neither asks nor installs.  Otherwise it returns as soon as a
    read gives one of [y], [Y], [n], [N]; while every read is an error
    or another rune it asks again and does not return: after [k] such
    reads it has asked [k + 1] times and waits. *)
Theorem completion_ending (env : MainGo.CompletionEnv)
  (reads : list (option N)) :
  let run := MainGo.installAutoCompletion env reads in
  match MainGo.completionSkipped env, MainGo.firstAnswer reads with
  | true, _ => run = ([], MainGo.Finished)
  | false, Some _ =>
      snd run = MainGo.Finished
      /\ List.length (filter MainGo.isPrompt (fst run)) <= List.length reads
  | false, None =>
      snd run = MainGo.Waiting
      /\ List.length (filter MainGo.isPrompt (fst run))
         = S (List.length reads)
  end.
Proof.
  cbv zeta. destruct (MainGo.completionSkipped env) eqn:Hs.
  - apply CompletionFacts.skipped_run. exact Hs.
  - rewrite (CompletionFacts.asked_run env reads Hs).
    apply CompletionFacts.promptLoop_ending.
Qed.

(** ** The action of the application and [Main] *)

(** X9: the action of the application always ends by showing the help,
    once.  Before it, it prints at most one update notice, with status
    [success], and it prints one exactly when the release tag starts
    with [RELEASE.] and the quiet flag, of the command or global, is
    set; without the quiet flag [checkUpdate] prints nothing. *)
Theorem appAction_update_notice (env : MainGo.UpdateEnv) :
  MainGo.appAction env
  = (filter MainGo.isPrintUpdate (MainGo.appAction env)
     ++ [MainGo.EvShowAppHelp])%list
  /\ List.length (filter MainGo.isPrintUpdate (MainGo.appAction env))
     = (if HasPrefix (MainGo.ReleaseTag env) "RELEASE."
           && (MainGo.quiet env || MainGo.globalQuietFlag env)
        then 1 else 0)
  /\ forall status text,
       In (MainGo.EvPrintUpdate status text) (MainGo.appAction env) ->
       status = "success".
Proof.
  unfold MainGo.appAction, MainGo.checkUpdate.
  destruct (HasPrefix (MainGo.ReleaseTag env) "RELEASE.");
    [| cbn; repeat split; intros status text [H | []]; discriminate].
  destruct (MainGo.quiet env || MainGo.globalQuietFlag env);
    [| cbn; repeat split; intros status text [H | []]; discriminate].
  destruct (MainGo.getUpdateInfo env) as [[[updateMsg cur] latest] [e |]];
    cbn; (split; [reflexivity |]); (split; [reflexivity |]);
    intros status text [H | [H | []]]; try discriminate;
    injection H as <- _; reflexivity.
Qed.


(** * More properties of [mainAdminHeal] *)

(** X11: a run of [mainAdminHeal] makes at most one direct call to the
    server before it follows a sequence: a background status query or a
    [Heal] call, never both.  It follows a sequence at most once, and
    only after a single [Heal] call without force stop. *)
Theorem server_calls_bounded (env : Env) (ctx : Context) :
  let t := trace (mainAdminHeal env ctx) in
  List.length (backgroundCalls t) + List.length (healCalls t) <= 1
  /\ List.length (pollCalls t) <= 1
  /\ (pollCalls t <> [] ->
      backgroundCalls t = []
      /\ healCalls t
         = [EvHeal (bucketOf env ctx) (prefixOf env ctx) (optsOf ctx) ""
                   (ctxBool ctx "force-start") false]).
Proof.
  cbv zeta. run_cases env ctx.
  - unfold trace. cbn [fst].
    rewrite prelude_healCalls, prelude_pollCalls, prelude_backgroundCalls.
    cbn. split; [lia |]. split; [lia |]. intros H. contradiction.
  - destruct (snd (BackgroundHealStatus env)); unfold trace; cbn [fst];
      rewrite prelude_healCalls, prelude_pollCalls, prelude_backgroundCalls;
      cbn; (split; [lia |]); (split; [lia |]); intros H; contradiction.
  - destruct (snd (stopResult env ctx)); unfold trace; cbn [fst];
      rewrite prelude_healCalls, prelude_pollCalls, prelude_backgroundCalls;
      cbn; (split; [lia |]); (split; [lia |]); intros H; contradiction.
  - cbv zeta.
    destruct (snd (startResult env ctx));
      [| destruct (snd (followResult env ctx))];
      unfold trace; cbn [fst];
      rewrite prelude_healCalls, prelude_pollCalls, prelude_backgroundCalls;
      cbn; (split; [lia |]); (split; [lia |]); intros H;
      first [contradiction | split; reflexivity].
  - cbn. split; [lia |]. split; [lia |]. intros H. contradiction.
Qed.

(** X12: the first call of a run that reaches the network builds the
    admin client, and it is given the argument as typed, before
    [filepath.ToSlash]; the server is called only with a client that
    was built, after the syntax was accepted. *)
Theorem client_comes_first (env : Env) (ctx : Context) :
  let t := trace (mainAdminHeal env ctx) in
  (networkCalls t = []
   \/ exists rest,
        networkCalls t = EvNewAdminClient (Get (Args ctx) 0) :: rest
        /\ filter isServerCall t = rest)
  /\ (filter isServerCall t <> [] ->
      syntaxOK ctx = true /\ newAdminClient env (Get (Args ctx) 0) = None).
Proof.
  cbv zeta. fold (target ctx). run_cases env ctx.
  - unfold trace. cbn [fst]. split.
    + right. eexists. split; reflexivity.
    + cbn. intros H. contradiction.
  - destruct (snd (BackgroundHealStatus env)); unfold trace; cbn [fst];
      (split; [right; eexists; split; reflexivity |]);
      intros _; split; reflexivity.
  - destruct (snd (stopResult env ctx)); unfold trace; cbn [fst];
      (split; [right; eexists; split; reflexivity |]);
      intros _; split; reflexivity.
  - cbv zeta.
    destruct (snd (startResult env ctx));
      [| destruct (snd (followResult env ctx))];
      unfold trace; cbn [fst];
      (split; [right; eexists; split; reflexivity |]);
      intros _; split; reflexivity.
  - split; [left; reflexivity |]. cbn. intros H. contradiction.
Qed.

(** X13: a run prints at most one message with [printMsg], and a run
    that prints one returns nil: no message of success is printed by a
    run that ends in [fatalIf] or in the help.  A run that starts and
    follows a sequence prints none. *)
Theorem printed_only_on_success (env : Env) (ctx : Context) :
  let run := mainAdminHeal env ctx in
  List.length (printed (trace run)) <= 1
  /\ (printed (trace run) <> [] ->
      outcome run = Returned None
      /\ pollCalls (trace run) = []
      /\ exists t, trace run = (t ++ printed (trace run))%list).
Proof.
  cbv zeta. run_cases env ctx.
  - unfold trace, outcome. cbn [fst snd]. rewrite prelude_printed. cbn.
    split; [lia |]. intros H. contradiction.
  - destruct (snd (BackgroundHealStatus env)); unfold trace, outcome;
      cbn [fst snd]; rewrite prelude_printed, prelude_pollCalls; cbn;
      (split; [lia |]); intros H; try contradiction.
    split; [reflexivity |]. split; [reflexivity |].
    exists (prelude ctx ++ [EvBackgroundHealStatus])%list.
    rewrite <- app_assoc. reflexivity.
  - destruct (snd (stopResult env ctx)); unfold trace, outcome;
      cbn [fst snd]; rewrite prelude_printed, prelude_pollCalls; cbn;
      (split; [lia |]); intros H; try contradiction.
    split; [reflexivity |]. split; [reflexivity |].
    eexists (prelude ctx ++ [_])%list.
    rewrite <- app_assoc. reflexivity.
  - cbv zeta.
    destruct (snd (startResult env ctx));
      [| destruct (snd (followResult env ctx))];
      unfold trace, outcome; cbn [fst snd]; rewrite prelude_printed; cbn;
      (split; [lia |]); intros H; contradiction.
  - cbn. split; [lia |]. intros H. contradiction.
Qed.

(** X14: the scan mode and the flags [dry-run] and [remove] do not steer
    the command.  Two invocations that pass the syntax check and agree on
    the target and on [recursive], [force-start] and [force-stop] make
    the same calls in the same order and end the same way, apart from
    the options they hand over, as long as the server and the follower
    answer alike for both. *)
Theorem options_do_not_steer (env : Env) (ctx ctx' : Context) :
  optionBlind env ->
  Args ctx = Args ctx' ->
  ctxBool ctx "recursive" = ctxBool ctx' "recursive" ->
  ctxBool ctx "force-start" = ctxBool ctx' "force-start" ->
  ctxBool ctx "force-stop" = ctxBool ctx' "force-stop" ->
  syntaxOK ctx = true ->
  syntaxOK ctx' = true ->
  map withoutOpts (trace (mainAdminHeal env ctx))
  = map withoutOpts (trace (mainAdminHeal env ctx'))
  /\ outcome (mainAdminHeal env ctx) = outcome (mainAdminHeal env ctx').
Proof.
  intros [HH HD] Ha Hr Hfs Hst Hs Hs'.
  assert (Ht : target ctx' = target ctx) by (unfold target; now rewrite Ha).
  assert (Hbk : bucketOf env ctx' = bucketOf env ctx)
    by (unfold bucketOf; now rewrite Ht).
  assert (Hpf : prefixOf env ctx' = prefixOf env ctx)
    by (unfold prefixOf; now rewrite Ht).
  assert (Hl : locator env ctx' = locator env ctx)
    by (unfold locator; now rewrite Ht).
  assert (Hp : prelude ctx' = prelude ctx)
    by (unfold prelude; now rewrite Ht).
  assert (Hbg : backgroundOnly env ctx' = backgroundOnly env ctx)
    by (unfold backgroundOnly; now rewrite Hbk, Hr).
  destruct (newAdminClient env (target ctx)) as [e |] eqn:Hc.
  { assert (Hc' : newAdminClient env (target ctx') = Some e)
      by (now rewrite Ht).
    rewrite (run_no_client env ctx e Hs Hc),
      (run_no_client env ctx' e Hs' Hc'), Hp, Ht.
    split; reflexivity. }
  assert (Hc' : newAdminClient env (target ctx') = None) by (now rewrite Ht).
  destruct (backgroundOnly env ctx) eqn:Hb.
  { rewrite (run_background env ctx Hs Hc Hb).
    rewrite (run_background env ctx' Hs' Hc' Hbg), Hp.
    destruct (snd (BackgroundHealStatus env)); split; reflexivity. }
  destruct (ctxBool ctx "force-stop") eqn:Hf; symmetry in Hst.
  { rewrite (run_stop env ctx Hs Hc Hb Hf),
      (run_stop env ctx' Hs' Hc' Hbg Hst).
    assert (Hres : snd (stopResult env ctx') = snd (stopResult env ctx)).
    { unfold stopResult. rewrite Hbk, Hpf, <- Hfs.
      rewrite (HH _ _ (optsOf ctx') (optsOf ctx)). reflexivity. }
    rewrite Hres, Hp, Hbk, Hpf, Hl, <- Hfs.
    destruct (snd (stopResult env ctx)); unfold trace, outcome, prelude;
      cbn [fst snd map app withoutOpts]; split; reflexivity. }
  rewrite (run_start env ctx Hs Hc Hb Hf),
    (run_start env ctx' Hs' Hc' Hbg Hst).
  assert (Hstart : startResult env ctx' = startResult env ctx).
  { unfold startResult. rewrite Hbk, Hpf, <- Hfs.
    apply (HH _ _ (optsOf ctx') (optsOf ctx)). }
  assert (Hfollow : followResult env ctx' = followResult env ctx).
  { unfold followResult. rewrite Hl. apply HD; unfold uiOf; cbn.
    - exact Hbk.
    - exact Hpf.
    - now rewrite Hstart.
    - now rewrite Hfs. }
  cbv zeta. rewrite Hstart, Hfollow, Hp, Hbk, Hpf, Hl, <- Hfs.
  destruct (snd (startResult env ctx)).
  { unfold trace, outcome, prelude. cbn [fst snd map app withoutOpts].
    split; reflexivity. }
  assert (Hui : withoutOpts (EvDisplayAndFollowHealStatus (uiOf env ctx')
                                                           (locator env ctx))
                = withoutOpts (EvDisplayAndFollowHealStatus (uiOf env ctx)
                                                             (locator env ctx))).
  { unfold uiOf.
    cbn [withoutOpts uiBucket uiPrefix uiClientToken uiForceStart
         ObjectsByOnlineDrives HealthCols].
    rewrite Hbk, Hpf, Hstart, <- Hfs. reflexivity. }
  destruct (snd (followResult env ctx)); unfold trace, outcome, prelude;
    cbn [fst snd map app]; rewrite Hui; split; reflexivity.
Qed.

Lemma options_do_not_steer_witness :
  let ctx := mkCtx ["myminio/bucket"] "normal" ["dry-run"] in
  let ctx' := mkCtx ["myminio/bucket"] "deep" ["remove"] in
  map withoutOpts (trace (mainAdminHeal unixEnv ctx))
  = map withoutOpts (trace (mainAdminHeal unixEnv ctx'))
  /\ outcome (mainAdminHeal unixEnv ctx)
     = outcome (mainAdminHeal unixEnv ctx')
  /\ healCalls (trace (mainAdminHeal unixEnv ctx))
     <> healCalls (trace (mainAdminHeal unixEnv ctx')).
Proof.
  intros ctx ctx'.
  assert (Hblind : optionBlind unixEnv).
  { split; intros; reflexivity. }
  destruct (options_do_not_steer unixEnv ctx ctx' Hblind
              eq_refl eq_refl eq_refl eq_refl eq_refl eq_refl)
    as [Ht Ho].
  split; [exact Ht |]. split; [exact Ho |].
  vm_compute. discriminate.
Defined.
